(** * SSD-512: anchor generation and training losses

    A shallow embedding of [nets/ssd_vgg_512.py]: the anchor generator
    ([ssd_anchor_one_layer], [ssd_anchors_all_layers],
    [ssd_size_bounds_to_values]), the loss engine ([ssd_losses]), the shape
    helpers ([layer_shape], [tensor_shape], [ssd_feat_shapes_from_net]),
    [reshape_and_concat] and the parameters of the class [SSDNet].

    Conventions of the embedding.
    - Floating-point numbers (Python floats, NumPy and TensorFlow float
      arrays) are exact rationals [Qc].  Rounding, signed zeros, NaN and
      infinities are outside the model; an operation that raises in Python
      (division of a Python float by zero, [math.sqrt] of a negative
      number) or that TensorFlow rejects at run time is an explicit
      [Raise].
    - Arrays and tensors are nested lists, outermost axis first.
    - The source is Python 2 ([xrange], [raise E, msg]); [/] between two
      Python ints is floor division.
    - Library functions whose values are not rational ([math.sqrt],
      [tf.nn.sparse_softmax_cross_entropy_with_logits]) are parameters of
      the sections that use them. *)

From Stdlib Require Import QArith Qcanon.
From Stdlib Require Qcabs.
From stdpp Require Import base numbers list sorting strings.

Local Open Scope Qc_scope.

(** ** Exceptions *)

(** The Python exceptions and the TensorFlow run-time error that the
    modelled functions can raise.  [NotFinite] is no exception: it marks a
    TensorFlow float that is NaN or an infinity, hence no rational. *)
Inductive exn : Set :=
  | IndexError
  | ZeroDivisionError
  | ValueError
  | AssertionError
  | InvalidArgumentError
  | NotFinite.

Inductive res (A : Type) : Type :=
  | Ok (a : A)
  | Raise (e : exn).
Arguments Ok {A} a.
Arguments Raise {A} e.

Global Instance res_ret : MRet res := λ A, @Ok A.
Global Instance res_bind : MBind res := λ A B f m,
  match m with Ok a => f a | Raise e => Raise e end.
Global Instance res_fmap : FMap res := λ A B f m,
  match m with Ok a => Ok (f a) | Raise e => Raise e end.

Definition is_Ok {A} (m : res A) : Prop := ∃ a, m = Ok a.
Definition is_Raise {A} (m : res A) : Prop := ∃ e, m = Raise e.

Global Instance exn_eq_dec : EqDecision exn.
Proof. solve_decision. Defined.
Global Instance res_eq_dec `{EqDecision A} : EqDecision (res A).
Proof. solve_decision. Defined.

(** ** Python and NumPy primitives *)

(** [l[i]] for reading. *)
Definition getitem {A} (l : list A) (i : nat) : res A :=
  match l !! i with
  | Some x => Ok x
  | None => Raise IndexError
  end.

(** [l[i] = v]. *)
Definition setitem {A} (l : list A) (i : nat) (v : A) : res (list A) :=
  if decide (i < length l)%nat then Ok (<[i:=v]> l) else Raise IndexError.

(** [x / y] on Python floats. *)
Definition truediv (x y : Qc) : res Qc :=
  if decide (y = 0) then Raise ZeroDivisionError else Ok (x / y).

(** An int promoted to a float. *)
Definition float_of_nat (n : nat) : Qc := Qc_of_Z (Z.of_nat n).

(** [np.mgrid[0:H, 0:W]]: the row-index grid and the column-index grid. *)
Definition mgrid (H W : nat) : list (list nat) * list (list nat) :=
  ((λ i, replicate W i) <$> seq 0 H, replicate H (seq 0 W)).

(** [(g.astype(dtype) + offset) * step / dim], elementwise on a grid.
    NumPy does not raise on a zero [dim]; the value is then not a rational
    and the model leaves it unspecified: [ssd_anchor_one_layer] raises
    before any such value is returned. *)
Definition grid_centers (g : list (list nat)) (offset step : Qc) (dim : Z)
    : list (list Qc) :=
  fmap (M:=list) (fmap (M:=list)
    (λ v, (float_of_nat v + offset) * step / Qc_of_Z dim)) g.

(** A 4-axis array. *)
Abbreviation array4 := (list (list (list (list Qc)))).

(** [np.zeros((d0, d1, d2, d3))]. *)
Definition np_zeros4 (d0 d1 d2 d3 : nat) : array4 :=
  replicate d0 (replicate d1 (replicate d2 (replicate d3 0))).

(** [a[:, :, di, c] = g.copy()] for a grid [g] over the first two axes. *)
Definition assign_grid (di c : nat) (g : list (list Qc)) (a : array4)
    : array4 :=
  zip_with (zip_with (λ cell v, alter (<[c:=v]>) di cell)) a g.

(** [a[:, :, di, c] = v] for a scalar [v]. *)
Definition assign_scalar (di c : nat) (v : Qc) (a : array4) : array4 :=
  fmap (M:=list) (fmap (M:=list) (alter (<[c:=v]>) di)) a.

(** [np.reshape(a, [-1, 4])] of an array whose last axis has 4 entries. *)
Definition reshape_rows (a : array4) : list (list Qc) := mjoin (mjoin a).

(** [np.vstack]. *)
Definition np_vstack (arrays : list (list (list Qc))) : res (list (list Qc)) :=
  match arrays with
  | [] => Raise ValueError
  | _ => Ok (mjoin arrays)
  end.

(** A [for] loop that threads a state and may raise. *)
Fixpoint foldlM {A B} (f : B → A → res B) (b : B) (l : list A) : res B :=
  match l with
  | [] => Ok b
  | x :: l => b' ← f b x; foldlM f b' l
  end.

(** [enumerate(l)]. *)
Definition enumerate {A} (l : list A) : list (nat * A) := imap pair l.

(** ** Anchor generation *)

Section anchors.
(** [math.sqrt] on its domain. *)
Variable sqrt : Qc → Qc.

Definition math_sqrt (x : Qc) : res Qc :=
  if decide (x < 0) then Raise ValueError else Ok (sqrt x).

(** Lines 321-323: the body of the loop over [enumerate(ratios)]. *)
Definition ratio_anchor (img_shape : Z * Z) (s0 : Qc) (di : nat)
    (hw : list Qc * list Qc) (ir : nat * Qc) : res (list Qc * list Qc) :=
  let '(h, w) := hw in
  let '(i, r) := ir in
  v ← truediv s0 (Qc_of_Z img_shape.1);
  q ← math_sqrt r;
  v ← truediv v q;
  h ← setitem h (i + di) v;
  v ← truediv s0 (Qc_of_Z img_shape.2);
  q ← math_sqrt r;
  w ← setitem w (i + di) (v * q);
  Ok (h, w).

(** Lines 310-323 of [ssd_anchor_one_layer]: the relative heights [h] and
    widths [w] of the anchors of one cell.  [img_shape] holds Python
    ints, [sizes] Python floats (as in [default_params] and in the output
    of [ssd_size_bounds_to_values]), [ratios] ints or floats. *)
Definition anchor_hw (img_shape : Z * Z) (sizes ratios : list Qc)
    : res (list Qc * list Qc) :=
  let num_anchors := (length sizes + length ratios)%nat in
  let h := replicate num_anchors 0 in
  let w := replicate num_anchors 0 in
  s0 ← getitem sizes 0;
  v ← truediv s0 (Qc_of_Z img_shape.1);
  h ← setitem h 0 v;
  v ← truediv s0 (Qc_of_Z img_shape.2);
  w ← setitem w 0 v;
  '(h, w, di) ←
    (if decide (1 < length sizes)%nat then
       s1 ← getitem sizes 1;
       r ← math_sqrt (s0 * s1);
       v ← truediv r (Qc_of_Z img_shape.1);
       h ← setitem h 1 v;
       r ← math_sqrt (s0 * s1);
       v ← truediv r (Qc_of_Z img_shape.2);
       w ← setitem w 1 v;
       Ok (h, w, 2%nat)
     else Ok (h, w, 1%nat));
  foldlM (ratio_anchor img_shape s0 di) (h, w) (enumerate ratios).

(** Lines 331-335: the body of the loop over [xrange(num_anchors)]. *)
Definition fill_step (x y : list (list Qc)) (h w : list Qc)
    (anchors : array4) (di : nat) : res array4 :=
  let anchors := assign_grid di 0 x anchors in
  let anchors := assign_grid di 1 y anchors in
  wd ← getitem w di;
  let anchors := assign_scalar di 2 wd anchors in
  hd ← getitem h di;
  let anchors := assign_scalar di 3 hd anchors in
  Ok anchors.

(** Lines 330-335: fill the [(H, W, num_anchors, 4)] array. *)
Definition fill_anchors (feat_shape : nat * nat) (num_anchors : nat)
    (x y : list (list Qc)) (h w : list Qc) : res array4 :=
  foldlM (fill_step x y h w)
    (np_zeros4 feat_shape.1 feat_shape.2 num_anchors 4)
    (seq 0 num_anchors).

Definition ssd_anchor_one_layer (img_shape : Z * Z) (feat_shape : nat * nat)
    (sizes ratios : list Qc) (step offset : Qc) : res (list (list Qc)) :=
  let '(y, x) := mgrid feat_shape.1 feat_shape.2 in
  let y := grid_centers y offset step img_shape.1 in
  let x := grid_centers x offset step img_shape.2 in
  let num_anchors := (length sizes + length ratios)%nat in
  '(h, w) ← anchor_hw img_shape sizes ratios;
  anchors ← fill_anchors feat_shape num_anchors x y h w;
  Ok (reshape_rows anchors).

(** The loop of [ssd_anchors_all_layers], from level [i] on. *)
Fixpoint layers_loop (img_shape : Z * Z) (i : nat)
    (layers_shape : list (nat * nat))
    (anchor_sizes anchor_ratios : list (list Qc)) (anchor_steps : list Qc)
    (offset : Qc) : res (list (list (list Qc))) :=
  match layers_shape with
  | [] => Ok []
  | s :: rest =>
      sizes ← getitem anchor_sizes i;
      ratios ← getitem anchor_ratios i;
      step ← getitem anchor_steps i;
      anchor_bboxes ← ssd_anchor_one_layer img_shape s sizes ratios step offset;
      layers_anchors ← layers_loop img_shape (S i) rest
                         anchor_sizes anchor_ratios anchor_steps offset;
      Ok (anchor_bboxes :: layers_anchors)
  end.

Definition ssd_anchors_all_layers (img_shape : Z * Z)
    (layers_shape : list (nat * nat))
    (anchor_sizes anchor_ratios : list (list Qc)) (anchor_steps : list Qc)
    (offset : Qc) : res (list (list Qc)) :=
  layers_anchors ← layers_loop img_shape 0 layers_shape
                     anchor_sizes anchor_ratios anchor_steps offset;
  np_vstack layers_anchors.

(** *** The anchors as the specification describes them *)

(** The shapes of one cell: anchor 0 from the first size, anchor 1 from
    the two sizes when there are two, then one anchor per ratio in the
    order of [ratios], all from the first size. *)
Definition spec_heights (img_shape : Z * Z) (sizes ratios : list Qc)
    : list Qc :=
  match sizes with
  | [] => []
  | s0 :: rest =>
      s0 / Qc_of_Z img_shape.1
      :: match rest with
         | [] => []
         | s1 :: _ => [sqrt (s0 * s1) / Qc_of_Z img_shape.1]
         end
      ++ ((λ r, s0 / Qc_of_Z img_shape.1 / sqrt r) <$> ratios)
  end.

Definition spec_widths (img_shape : Z * Z) (sizes ratios : list Qc)
    : list Qc :=
  match sizes with
  | [] => []
  | s0 :: rest =>
      s0 / Qc_of_Z img_shape.2
      :: match rest with
         | [] => []
         | s1 :: _ => [sqrt (s0 * s1) / Qc_of_Z img_shape.2]
         end
      ++ ((λ r, s0 / Qc_of_Z img_shape.2 * sqrt r) <$> ratios)
  end.

(** The centre of the cell in row [i] and column [j]. *)
Definition center_y (img_shape : Z * Z) (step offset : Qc) (i : nat) : Qc :=
  (float_of_nat i + offset) * step / Qc_of_Z img_shape.1.
Definition center_x (img_shape : Z * Z) (step offset : Qc) (j : nat) : Qc :=
  (float_of_nat j + offset) * step / Qc_of_Z img_shape.2.

(** The anchors of one level: every cell in row-major order, every shape
    of the cell in its order, each as [center_x; center_y; width; height]. *)
Definition spec_level_anchors (img_shape : Z * Z) (feat_shape : nat * nat)
    (sizes ratios : list Qc) (step offset : Qc) : list (list Qc) :=
  i ← seq 0 feat_shape.1;
  j ← seq 0 feat_shape.2;
  (λ '(wd, hd), [center_x img_shape step offset j;
                 center_y img_shape step offset i; wd; hd])
    <$> zip (spec_widths img_shape sizes ratios)
            (spec_heights img_shape sizes ratios).

(** A level on which the Python code raises nothing: non-zero image
    sides, one or two sizes, arguments of [math.sqrt] that are not
    negative, and no zero divisor among the roots of the ratios. *)
Definition ratio_ok (r : Qc) : Prop := ¬ r < 0 ∧ sqrt r ≠ 0.
Definition level_ok (img_shape : Z * Z) (sizes ratios : list Qc) : Prop :=
  img_shape.1 ≠ 0%Z ∧ img_shape.2 ≠ 0%Z ∧
  match sizes with
  | [_] => True
  | [s0; s1] => ¬ s0 * s1 < 0
  | _ => False
  end ∧
  Forall ratio_ok ratios.

(** A configuration as the specification wants it: at least one level,
    one entry per level in each list, every level as above. *)
Definition config_ok (img_shape : Z * Z) (layers_shape : list (nat * nat))
    (anchor_sizes anchor_ratios : list (list Qc)) (anchor_steps : list Qc)
    : Prop :=
  layers_shape ≠ [] ∧
  length anchor_sizes = length layers_shape ∧
  length anchor_ratios = length layers_shape ∧
  length anchor_steps = length layers_shape ∧
  Forall2 (level_ok img_shape) anchor_sizes anchor_ratios.

(** The anchors of all levels, level after level. *)
Definition spec_all_anchors (img_shape : Z * Z)
    (layers_shape : list (nat * nat))
    (anchor_sizes anchor_ratios : list (list Qc)) (anchor_steps : list Qc)
    (offset : Qc) : list (list Qc) :=
  mjoin (zip_with (λ s '(sizes, ratios, step),
                     spec_level_anchors img_shape s sizes ratios step offset)
           layers_shape (zip (zip anchor_sizes anchor_ratios) anchor_steps)).

(** The number of anchors the specification announces. *)
Definition spec_anchor_count (layers_shape : list (nat * nat))
    (anchor_sizes anchor_ratios : list (list Qc)) : nat :=
  sum_list (zip_with (λ s '(sizes, ratios),
                        s.1 * s.2 * (length sizes + length ratios))%nat
              layers_shape (zip anchor_sizes anchor_ratios)).
End anchors.

(** ** Reference sizes from relative bounds *)

(** [int(x)] on a float: truncation toward zero; also the value of
    [tf.cast(x, tf.int32)] on the int32 range. *)
Definition trunc (x : Qc) : Z := Z.quot (Qnum x) (Zpos (Qden x)).

(** [a / b] on Python 2 ints. *)
Definition int_div (a b : Z) : res Z :=
  if decide (b = 0)%Z then Raise ZeroDivisionError else Ok (a `div` b)%Z.

(** [range(start, stop, step)]. *)
Definition py_range (start stop step : Z) : res (list Z) :=
  if decide (step = 0)%Z then Raise ValueError
  else if decide (0 < step)%Z then
    Ok ((λ k, start + k * step)%Z <$> seqZ 0 ((stop - start + step - 1) `div` step))
  else
    Ok ((λ k, start + k * step)%Z <$> seqZ 0 ((start - stop - step - 1) `div` (- step))).

Definition ssd_size_bounds_to_values (size_bounds : Qc * Qc)
    (n_feat_layers : Z) (img_shape : Z * Z) : res (list (list Qc)) :=
  if decide (img_shape.1 = img_shape.2) then
    let img_size := img_shape.1 in
    let min_ratio := trunc (size_bounds.1 * Qc_of_Z 100) in
    let max_ratio := trunc (size_bounds.2 * Qc_of_Z 100) in
    step ← int_div (max_ratio - min_ratio) (n_feat_layers - 2);
    ratios ← py_range min_ratio (max_ratio + 1) step;
    Ok ([Qc_of_Z img_size * Q2Qc (4 # 100); Qc_of_Z img_size * Q2Qc (1 # 10)]
        :: ((λ ratio, [Qc_of_Z (img_size * ratio) / Qc_of_Z 100;
                       Qc_of_Z (img_size * (ratio + step)) / Qc_of_Z 100])
            <$> ratios))
  else Raise AssertionError.

(** ** TensorFlow primitives *)

(** [tf.cast] of a boolean tensor entry to the float type. *)
Definition cast_float (b : bool) : Qc := if b then 1 else 0.

(** [tf.reduce_sum] over one, two and three axes. *)
Definition reduce_sum (t : list Qc) : Qc := foldr Qcplus 0 t.
Definition reduce_sum2 (t : list (list Qc)) : Qc :=
  reduce_sum (reduce_sum <$> t).
Definition reduce_sum3 (t : list (list (list Qc))) : Qc :=
  reduce_sum (reduce_sum2 <$> t).

(** [tf.where(c, x, y)] on tensors of one shape, for one and two axes. *)
Definition tf_where (c : list bool) (x y : list Qc) : list Qc :=
  zip_with (λ c xy, if c : bool then xy.1 else xy.2) c (zip x y).
Definition tf_where2 (c : list (list bool)) (x y : list (list Qc))
    : list (list Qc) :=
  zip_with (λ c xy, tf_where c xy.1 xy.2) c (zip x y).

(** [t[:, :, 0]]; the last axis (the classes) is statically non-empty. *)
Definition slice_class0 (t : list (list (list Qc))) : list (list Qc) :=
  fmap (M:=list) (fmap (M:=list) (λ p, default 0 (head p))) t.

(** [tf.minimum]. *)
Definition tf_minimum (x y : Qc) : Qc := if decide (x ≤ y) then x else y.

(** [x / y] on float tensors.  TensorFlow does not raise on a zero
    divisor: the quotient is NaN or an infinity, which is no rational;
    the model marks that outcome [NotFinite]. *)
Definition tf_div (x y : Qc) : res Qc :=
  if decide (y = 0) then Raise NotFinite else Ok (x / y).

(** The values of [tf.nn.top_k(input, k)]: the [k] largest entries, largest
    first.  The op rejects a negative [k] and a [k] beyond the length. *)
Definition top_k (input : list Qc) (k : Z) : res (list Qc) :=
  if decide (0 ≤ k ∧ k ≤ Z.of_nat (length input))%Z
  then Ok (take (Z.to_nat k) (merge_sort (flip Qcle) input))
  else Raise InvalidArgumentError.

(** [val[-1]]: the strided slice rejects index -1 on an empty axis. *)
Definition last_item (val : list Qc) : res Qc :=
  match last val with
  | Some v => Ok v
  | None => Raise InvalidArgumentError
  end.

(** ** The loss engine *)

(** Modelled from the spec: [custom_layers.abs_smooth] is imported from
    [nets/custom_layers.py], which is not among the sources; the spec gives
    the penalty for an error [e] as 0.5*e^2 when |e| < 1, else |e| - 0.5. *)
Definition abs_smooth (e : Qc) : Qc :=
  if decide (Qcabs.Qcabs e < 1) then Q2Qc (1 # 2) * e * e
  else Qcabs.Qcabs e - Q2Qc (1 # 2).

(** The two tensors that [ssd_losses] adds to the [LOSSES] collection,
    each with the outcome of evaluating it. *)
Record losses : Type := Losses {
  cls_loss : res Qc;
  loc_loss : res Qc
}.

Section losses.
(** [tf.nn.sparse_softmax_cross_entropy_with_logits] on the logits and the
    label of one anchor. *)
Variable sparse_softmax_cross_entropy_with_logits : list Qc → Z → Qc.

(** Lines 613-621: [has_pos] of the mining loop. *)
Definition mining_has_pos (negative_ratio n_pos : Qc) (img_neg_conf : list Qc)
    (img_neg_mask : list bool) (img_float_neg_mask : list Qc)
    : res (list Qc) :=
  let n_neg := n_pos * negative_ratio in
  let max_neg_entries := reduce_sum img_float_neg_mask in
  let n_neg := tf_minimum max_neg_entries n_neg in
  let n_neg := trunc n_neg in
  val ← top_k (Qcopp <$> img_neg_conf) n_neg;
  min_val ← last_item val;
  let selected_img_neg :=
    zip_with andb img_neg_mask
      ((λ c, bool_decide (c ≤ - min_val)) <$> img_neg_conf) in
  Ok (cast_float <$> selected_img_neg).

(** Lines 622-623: [no_pos] of the mining loop, [tf.zeros_like]. *)
Definition mining_no_pos (img_float_pos_mask : list Qc) : res (list Qc) :=
  Ok ((λ _, 0) <$> img_float_pos_mask).

(** Lines 606-625: the body of the loop over the images of the batch. *)
Definition select_img_neg (negative_ratio : Qc) (img_neg_conf : list Qc)
    (img_pos_mask img_neg_mask : list bool) : res (list Qc) :=
  let img_float_pos_mask := cast_float <$> img_pos_mask in
  let img_float_neg_mask := cast_float <$> img_neg_mask in
  let n_pos := reduce_sum img_float_pos_mask in
  if decide (0 < n_pos)
  then mining_has_pos negative_ratio n_pos img_neg_conf
         img_neg_mask img_float_neg_mask
  else mining_no_pos img_float_pos_mask.

(** Lines 596-600. *)
Definition pos_mask_of (gclasses : list (list Z)) : list (list bool) :=
  fmap (M:=list) (fmap (M:=list) (λ g, bool_decide (0 < g)%Z)) gclasses.
Definition neg_mask_of (gclasses : list (list Z)) : list (list bool) :=
  fmap (M:=list) (fmap (M:=list) negb) (pos_mask_of gclasses).
Definition float_pos_mask_of (gclasses : list (list Z)) : list (list Qc) :=
  fmap (M:=list) (fmap (M:=list) cast_float) (pos_mask_of gclasses).
Definition nvalues_of (confidences : list (list (list Qc)))
    (gclasses : list (list Z)) : list (list Qc) :=
  tf_where2 (neg_mask_of gclasses) (slice_class0 confidences)
    (float_pos_mask_of gclasses).

(** Lines 602-628: the loop over the images and [tf.stack]. *)
Definition selected_neg_of (confidences : list (list (list Qc)))
    (gclasses : list (list Z)) (negative_ratio : Qc) : res (list (list Qc)) :=
  mapM (λ '(img_neg_conf, img_pos_mask, img_neg_mask),
          select_img_neg negative_ratio img_neg_conf img_pos_mask img_neg_mask)
    (zip (zip (nvalues_of confidences gclasses) (pos_mask_of gclasses))
         (neg_mask_of gclasses)).

(** Elementwise operations on tensors of one shape. *)
Definition add2 (s t : list (list Qc)) : list (list Qc) :=
  zip_with (zip_with Qcplus) s t.
Definition mul2 (s t : list (list Qc)) : list (list Qc) :=
  zip_with (zip_with Qcmult) s t.
Definition sub3 (s t : list (list (list Qc))) : list (list (list Qc)) :=
  zip_with (zip_with (zip_with Qcminus)) s t.

(** [t * tf.expand_dims(m, axis=-1)]: the last axis of [m] is broadcast. *)
Definition mul_expand (t : list (list (list Qc))) (m : list (list Qc))
    : list (list (list Qc)) :=
  zip_with (zip_with (λ row v, (λ e, e * v) <$> row)) t m.

(** [ssd_losses].  The function ends without a [return]: its results are
    the two tensors appended to the [LOSSES] collection.  The summaries
    (lines 630-633) feed neither tensor and are left out.  [cls_weight] is
    built outside the branches of the [tf.cond] at line 651, so the mining
    ops run whichever branch is taken; the localization tensor does not
    depend on them. *)
Definition ssd_losses (confidences logits localizations : list (list (list Qc)))
    (gclasses : list (list Z)) (glocalizations : list (list (list Qc)))
    (gscores : list (list Qc)) (negative_ratio alpha label_smoothing : Qc)
    : losses :=
  let float_pos_mask := float_pos_mask_of gclasses in
  let selected_neg := selected_neg_of confidences gclasses negative_ratio in
  let N := reduce_sum2 float_pos_mask in
  {| cls_loss :=
       selected_neg ← selected_neg;
       let cls_weight := add2 selected_neg float_pos_mask in
       if decide (0 < N) then
         let cls_loss :=
           zip_with (zip_with sparse_softmax_cross_entropy_with_logits)
             logits gclasses in
         tf_div (reduce_sum2 (mul2 cls_loss cls_weight)) N
       else Ok 0;
     loc_loss :=
       if decide (0 < N) then
         let weights := float_pos_mask in
         let loc_loss :=
           fmap (M:=list) (fmap (M:=list) (fmap (M:=list) abs_smooth))
             (sub3 localizations glocalizations) in
         tf_div (alpha * reduce_sum3 (mul_expand loc_loss weights)) N
       else Ok 0 |}.
End losses.

(** ** The losses as the specification describes them *)

(** The positive and the negative anchors of one image, counted. *)
Definition img_positives (gcs : list Z) : nat :=
  length (filter (λ g, (0 < g)%Z) gcs).
Definition img_negatives (gcs : list Z) : nat :=
  length (filter (λ g, (g ≤ 0)%Z) gcs).



(** The integer part of a float, rounding down. *)
Definition floor (x : Qc) : Z := (Qnum x `div` Zpos (Qden x))%Z.

(** The number of negatives to select in an image. *)
Definition spec_n_neg (gcs : list Z) (negative_ratio : Qc) : Z :=
  floor (tf_minimum (float_of_nat (img_negatives gcs))
           (float_of_nat (img_positives gcs) * negative_ratio)).






(** Two confidence tensors of the shape of [gclasses] whose background
    entries (class 0) agree at every anchor that is not positive. *)
Definition same_background_on_negatives (gclasses : list (list Z))
    (c1 c2 : list (list (list Qc))) : Prop :=
  Forall3 (λ gcs r1 r2,
             Forall3 (λ g (p1 p2 : list Qc), (g ≤ 0)%Z → head p1 = head p2)
               gcs r1 r2)
    gclasses c1 c2.


(** ** Static shapes *)

(** A static shape ([tf.TensorShape]): [None] when the rank is unknown,
    else one entry per axis, [None] for a dimension that is unknown. *)
Definition TensorShape : Type := option (list (option nat)).

(** [shape.as_list()]: not defined on a shape of unknown rank. *)
Definition as_list (shape : TensorShape) : res (list (option nat)) :=
  match shape with
  | Some dims => Ok dims
  | None => Raise ValueError
  end.

(** [l[a:b]] for 0 <= a <= b. *)
Definition slice {A} (l : list A) (a b : nat) : list A :=
  take (b - a) (drop a l).

(** The loop of [ssd_feat_shapes_from_net], with the shapes collected so
    far.  Each prediction is given by its static shape; the function
    returns the list it built or the object [default_shapes], of any
    type. *)
Fixpoint feat_shapes_loop {D} (predictions : list TensorShape)
    (default_shapes : D) (feat_shapes : list (list (option nat)))
    : res (list (list (option nat)) + D) :=
  match predictions with
  | [] => Ok (inl feat_shapes)
  | l :: predictions =>
      shape ← as_list l;
      let shape := slice shape 1 4 in
      if decide (None ∈ shape) then Ok (inr default_shapes)
      else feat_shapes_loop predictions default_shapes (feat_shapes ++ [shape])
  end.

Definition ssd_feat_shapes_from_net {D} (predictions : list TensorShape)
    (default_shapes : D) : res (list (list (option nat)) + D) :=
  feat_shapes_loop predictions default_shapes [].

(** An entry of the list that [tensor_shape] and [layer_shape] return: a
    Python int, or the scalar tensor number [i] among the [num] outputs of
    [tf.unstack(tf.shape(x), num)], whose value exists at run time only. *)
Inductive dim : Set :=
  | Static (n : nat)
  | Dynamic (num i : nat).

(** [shape.is_fully_defined()], with [shape.as_list()] when it holds: then
    every entry is an int. *)
Definition fully_defined (shape : TensorShape) : option (list nat) :=
  dims ← shape; mapM id dims.

(** [shape.with_rank(rank)]: the shape itself when it has that rank, a
    shape of unknown dimensions when its rank is unknown. *)
Definition with_rank (shape : TensorShape) (rank : nat) : res TensorShape :=
  match shape with
  | None => Ok (Some (replicate rank None))
  | Some dims =>
      if decide (length dims = rank) then Ok shape else Raise ValueError
  end.

(** [tf.unstack(tf.shape(x), num)] for a tensor [x] of static shape
    [shape]: [tf.shape(x)] is a vector whose length is the rank of [x], and
    the op is rejected when that length is known and is not [num]. *)
Definition unstack_shape (shape : TensorShape) (num : nat) : res (list dim) :=
  match shape with
  | Some dims =>
      if decide (length dims = num) then Ok (Dynamic num <$> seq 0 num)
      else Raise ValueError
  | None => Ok (Dynamic num <$> seq 0 num)
  end.

(** [[s if s is not None else d for s, d in zip(static_shape, dynamic_shape)]]. *)
Definition merge_shapes (static_shape : list (option nat))
    (dynamic_shape : list dim) : list dim :=
  zip_with (λ s d, match s with Some n => Static n | None => d end)
    static_shape dynamic_shape.

Definition tensor_shape (x : TensorShape) (rank : nat) : res (list dim) :=
  match fully_defined x with
  | Some dims => Ok (Static <$> dims)
  | None =>
      static_shape ← with_rank x rank ≫= as_list;
      dynamic_shape ← unstack_shape x rank;
      Ok (merge_shapes static_shape dynamic_shape)
  end.

Definition layer_shape (layer : TensorShape) : res (list dim) :=
  match fully_defined layer with
  | Some dims => Ok (Static <$> dims)
  | None =>
      static_shape ← with_rank layer 4 ≫= as_list;
      dynamic_shape ← unstack_shape layer 3;
      Ok (merge_shapes static_shape dynamic_shape)
  end.

(** Line 604 of [ssd_losses]: [batch_size = tensor_shape(gclasses)[0]],
    with the default rank 3. *)
Definition batch_size_of (gclasses : TensorShape) : res dim :=
  shape ← tensor_shape gclasses 3; getitem shape 0.

(** The value of an entry once the tensor has the run-time shape
    [runtime]: [tf.unstack] fails when the rank is not the number of
    outputs it was built for. *)
Definition dim_value (runtime : list nat) (d : dim) : res nat :=
  match d with
  | Static n => Ok n
  | Dynamic num i =>
      if decide (length runtime = num) then getitem runtime i
      else Raise InvalidArgumentError
  end.

(** A run-time shape that a static shape allows. *)
Definition compatible (shape : TensorShape) (runtime : list nat) : Prop :=
  match shape with
  | None => True
  | Some dims => Forall2 (λ s r, ∀ n, s = Some n → r = n) dims runtime
  end.

(** The feature shape that [ssd_feat_shapes_from_net] reads off a
    prediction. *)
Definition feat_shape_of (p : TensorShape) : list (option nat) :=
  slice (default [] p) 1 4.

(** ** Prediction tensors *)

(** A tensor of any rank, as TensorFlow stores it: its shape and its
    entries in row-major order. *)
Record tensor : Type := Tensor {
  shape : list nat;
  entries : list Qc
}.

(** The number of entries of a tensor of shape [s]. *)
Definition num_elements (s : list nat) : nat := foldr Nat.mul 1%nat s.

Definition well_formed (t : tensor) : Prop :=
  length (entries t) = num_elements (shape t).

(** [get_shape] of [reshape_and_concat]: the target
    [(tf.shape(tensor)[0], -1, tf.shape(tensor)[-1])], given by its first
    and last entries, for a tensor of rank 5. *)
Definition get_shape (t : tensor) : res (nat * nat) :=
  match shape t with
  | [d0; _; _; _; d4] => Ok (d0, d4)
  | _ => Raise ValueError
  end.

(** [tf.reshape(t, (d0, -1, d2))]: the entries stay in place; the op
    infers the middle dimension, and rejects a target without entries or
    one that does not divide the tensor. *)
Definition tf_reshape (t : tensor) (target : nat * nat) : res tensor :=
  let '(d0, d2) := target in
  let product := (d0 * d2)%nat in
  if decide (product = 0%nat) then Raise InvalidArgumentError
  else
    let missing := (num_elements (shape t) / product)%nat in
    if decide ((product * missing)%nat = num_elements (shape t))
    then Ok (Tensor [d0; missing; d2] (entries t))
    else Raise InvalidArgumentError.

(** The entries of [t[b, :, :]] for a tensor of rank 3. *)
Definition block (t : tensor) (b : nat) : list Qc :=
  match shape t with
  | [_; n; k] => take (n * k) (drop (b * (n * k)) (entries t))
  | _ => []
  end.

(** [tf.concat(values, axis=1)] on tensors of rank 3: at least one tensor,
    all of one shape off axis 1. *)
Definition tf_concat (values : list tensor) : res tensor :=
  match values with
  | [] => Raise ValueError
  | t0 :: _ =>
      match shape t0 with
      | [d0; _; d2] =>
          if decide (Forall (λ t, <[1%nat:=0%nat]> (shape t) = [d0; 0%nat; d2])
                       values)
          then Ok (Tensor
                     [d0; sum_list ((λ t, default 0%nat (shape t !! 1%nat))
                                    <$> values); d2]
                     (b ← seq 0 d0; t ← values; block t b))
          else Raise ValueError
      | _ => Raise ValueError
      end
  end.

(** [reshape_and_concat].  [get_shape] runs while the graph is built, for
    every tensor, before any op runs; the ops then check their inputs in
    the order of the code. *)
Definition reshape_and_concat (tensors : list tensor) : res tensor :=
  shapes ← mapM get_shape tensors;
  tensors_reshaped ← mapM (λ '(t, s), tf_reshape t s) (zip tensors shapes);
  tf_concat tensors_reshaped.

(** The anchors per image that a prediction tensor of shape
    [(batch, H, W, num_anchors, k)] covers. *)
Definition anchors_of (t : tensor) : nat :=
  match shape t with
  | [_; h; w; a; _] => (h * w * a)%nat
  | _ => 0%nat
  end.

(** A prediction tensor of batch size [B] with [K] entries per anchor. *)
Definition prediction (B K : nat) (t : tensor) : Prop :=
  well_formed t ∧ ∃ h w a, shape t = [B; h; w; a; K].

(** ** The class [SSDNet] *)

(** The named tuple [SSDParams]. *)
Module SSDParams.

Record t : Type := {
  img_shape : Z * Z;
  num_classes : Z;
  no_annotation_label : Z;
  feat_layers : list string;
  feat_shapes : list (nat * nat);
  anchor_size_bounds : Qc * Qc;
  anchor_sizes : list (list Qc);
  anchor_ratios : list (list Qc);
  anchor_steps : list Qc;
  anchor_offset : Qc;
  normalizations : list Z;
  prior_scaling : list Qc
}.

End SSDParams.

Module SSDNet.

Definition default_params : SSDParams.t := {|
  SSDParams.img_shape := (512, 512)%Z;
  SSDParams.num_classes := 21;
  SSDParams.no_annotation_label := 21;
  SSDParams.feat_layers :=
    ["block4"; "block7"; "block8"; "block9"; "block10"; "block11";
     "block12"]%string;
  SSDParams.feat_shapes :=
    [(64, 64); (32, 32); (16, 16); (8, 8); (4, 4); (2, 2); (1, 1)]%nat;
  SSDParams.anchor_size_bounds := (Q2Qc (10 # 100), Q2Qc (90 # 100));
  SSDParams.anchor_sizes :=
    [[Q2Qc (2048 # 100); Q2Qc (512 # 10)];
     [Q2Qc (512 # 10); Q2Qc (13312 # 100)];
     [Q2Qc (13312 # 100); Q2Qc (21504 # 100)];
     [Q2Qc (21504 # 100); Q2Qc (29696 # 100)];
     [Q2Qc (29696 # 100); Q2Qc (37888 # 100)];
     [Q2Qc (37888 # 100); Q2Qc (4608 # 10)];
     [Q2Qc (4608 # 10); Q2Qc (54272 # 100)]];
  SSDParams.anchor_ratios :=
    [[Qc_of_Z 4; Q2Qc (1 # 4)];
     [Qc_of_Z 4; Qc_of_Z 8; Q2Qc (1 # 4); Q2Qc (1 # 8)];
     [Qc_of_Z 4; Qc_of_Z 8; Q2Qc (1 # 4); Q2Qc (1 # 8)];
     [Qc_of_Z 4; Qc_of_Z 8; Q2Qc (1 # 4); Q2Qc (1 # 8)];
     [Qc_of_Z 4; Qc_of_Z 8; Q2Qc (1 # 4); Q2Qc (1 # 8)];
     [Qc_of_Z 4; Q2Qc (1 # 4)];
     [Qc_of_Z 4; Q2Qc (1 # 4)]];
  SSDParams.anchor_steps := Qc_of_Z <$> [8; 16; 32; 64; 128; 256; 512]%Z;
  SSDParams.anchor_offset := Q2Qc (5 # 10);
  SSDParams.normalizations := [20; -1; -1; -1; -1; -1; -1]%Z;
  SSDParams.prior_scaling :=
    [Q2Qc (1 # 10); Q2Qc (1 # 10); Q2Qc (2 # 10); Q2Qc (2 # 10)]
|}.

(** An instance holds its parameters. *)
Record t : Type := { params : SSDParams.t }.

(** [__init__]: [None] stands for every argument that is not an
    [SSDParams]. *)
Definition __init__ (params : option SSDParams.t) : t :=
  match params with
  | Some params => {| params := params |}
  | None => {| params := default_params |}
  end.

Definition anchors (sqrt : Qc → Qc) (self : t) (img_shape : Z * Z)
    : res (list (list Qc)) :=
  ssd_anchors_all_layers sqrt img_shape
    (SSDParams.feat_shapes (params self))
    (SSDParams.anchor_sizes (params self))
    (SSDParams.anchor_ratios (params self))
    (SSDParams.anchor_steps (params self))
    (SSDParams.anchor_offset (params self)).

Definition losses (sparse_softmax_cross_entropy_with_logits : list Qc → Z → Qc)
    (self : t) (confidences logits localizations : list (list (list Qc)))
    (gclasses : list (list Z)) (glocalizations : list (list (list Qc)))
    (gscores : list (list Qc))
    (match_threshold negative_ratio alpha label_smoothing : Qc) : losses :=
  ssd_losses sparse_softmax_cross_entropy_with_logits
    confidences logits localizations gclasses glocalizations gscores
    negative_ratio alpha label_smoothing.

End SSDNet.

(** ** Auxiliary definitions of the proofs and the examples *)

(** An [H] by [W] grid given by its entry at row [i] and column [j]. *)
Definition table {A} (f : nat → nat → A) (H W : nat) : list (list A) :=
  (λ i, (λ j, f i j) <$> seq 0 W) <$> seq 0 H.

(** One cell of the anchors array after [k] rounds of the filling loop. *)
Definition cell (h w : list Qc) (n k : nat) (xv yv : Qc) : list (list Qc) :=
  ((λ '(wd, hd), [xv; yv; wd; hd]) <$> take k (zip w h))
  ++ replicate (n - k) (replicate 4 0).

(** A root for the examples: exact on squares of rationals. *)
Definition rational_sqrt (x : Qc) : Qc :=
  Q2Qc (Z.sqrt (Qnum x) # Pos.sqrt (Qden x)).

(** A stand-in for the cross-entropy in the examples: one minus the logit
    of the label. *)
Definition example_cross_entropy (logits : list Qc) (label : Z) : Qc :=
  1 - default 0 (logits !! Z.to_nat label).

(** Equalities and orders between concrete rationals, by evaluation. *)
Ltac qc_decide := apply (bool_decide_unpack _); vm_compute; exact I.

(** * Proofs *)

(** ** The result monad and the primitives *)

Lemma res_bind_Ok {A B} (f : A → res B) (a : A) : (Ok a ≫= f) = f a.
Proof. reflexivity. Qed.

Lemma getitem_Ok {A} (l : list A) i x : l !! i = Some x → getitem l i = Ok x.
Proof. unfold getitem. by intros ->. Qed.

Lemma setitem_Ok {A} (l : list A) i v :
  (i < length l)%nat → setitem l i v = Ok (<[i:=v]> l).
Proof. unfold setitem. intros. by rewrite decide_True. Qed.

Lemma truediv_Ok x y : y ≠ 0 → truediv x y = Ok (x / y).
Proof. unfold truediv. intros. by rewrite decide_False. Qed.

Lemma Qc_of_Z_nonzero z : z ≠ 0%Z → Qc_of_Z z ≠ 0.
Proof. intros Hz Hq. apply Hz, Z2Qc_inj. by rewrite Hq, Z2Qc_inj_0. Qed.

Lemma replicate_fmap_seq {A} (x : A) n a : replicate n x = (λ _, x) <$> seq a n.
Proof. revert a. induction n; intros; simpl; f_equal; auto. Qed.

Lemma table_ext {A} (f g : nat → nat → A) H W :
  (∀ i j, (i < H)%nat → (j < W)%nat → f i j = g i j) → table f H W = table g H W.
Proof.
  intros Hfg. unfold table. apply list_fmap_ext. intros k i [-> ?]%lookup_seq.
  apply list_fmap_ext. intros k' j [-> ?]%lookup_seq. by apply Hfg.
Qed.

Lemma table_lookup {A} (f : nat → nat → A) H W i j :
  (i < H)%nat → (j < W)%nat → table f H W !! i ≫= (.!! j) = Some (f i j).
Proof.
  intros. unfold table. rewrite list_lookup_fmap, lookup_seq_lt by done.
  simpl. by rewrite list_lookup_fmap, lookup_seq_lt.
Qed.

Lemma mgrid_table H W : mgrid H W = (table (λ i _, i) H W, table (λ _ j, j) H W).
Proof.
  unfold mgrid, table. f_equal.
  - apply list_fmap_ext. intros. apply replicate_fmap_seq.
  - rewrite (replicate_fmap_seq _ _ 0). apply list_fmap_ext. intros.
    by rewrite list_fmap_id.
Qed.

Lemma grid_centers_table g H W offset step dim :
  grid_centers (table g H W) offset step dim
  = table (λ i j, (float_of_nat (g i j) + offset) * step / Qc_of_Z dim) H W.
Proof.
  unfold grid_centers, table. rewrite <-list_fmap_compose.
  apply list_fmap_ext. intros. simpl. by rewrite <-list_fmap_compose.
Qed.

Lemma np_zeros4_table H W n m :
  np_zeros4 H W n m = table (λ _ _, replicate n (replicate m 0)) H W.
Proof.
  unfold np_zeros4, table. rewrite (replicate_fmap_seq _ H 0).
  apply list_fmap_ext. intros. apply replicate_fmap_seq.
Qed.

Lemma assign_grid_table di c g f H W :
  assign_grid di c (table g H W) (table f H W)
  = table (λ i j, alter (<[c:=g i j]>) di (f i j)) H W.
Proof.
  unfold assign_grid, table.
  rewrite zip_with_fmap_l, zip_with_fmap_r, zip_with_diag.
  apply list_fmap_ext. intros.
  by rewrite zip_with_fmap_l, zip_with_fmap_r, zip_with_diag.
Qed.

Lemma assign_scalar_table di c v f H W :
  assign_scalar di c v (table f H W)
  = table (λ i j, alter (<[c:=v]>) di (f i j)) H W.
Proof.
  unfold assign_scalar, table. rewrite <-list_fmap_compose.
  apply list_fmap_ext. intros. simpl. by rewrite <-list_fmap_compose.
Qed.

Lemma cell_step h w n k xv yv wk hk :
  w !! k = Some wk → h !! k = Some hk → (k < n)%nat →
  alter (<[3%nat:=hk]>) k (alter (<[2%nat:=wk]>) k
    (alter (<[1%nat:=yv]>) k (alter (<[0%nat:=xv]>) k (cell h w n k xv yv))))
  = cell h w n (S k) xv yv.
Proof.
  intros Hw Hh Hk. unfold cell.
  assert (zip w h !! k = Some (wk, hk)) as Hz.
  { rewrite lookup_zip_with, Hw. simpl. by rewrite Hh. }
  assert (length (take k (zip w h)) = k) as Hlen.
  { apply length_take_le. apply lookup_lt_Some in Hz. lia. }
  rewrite (take_S_r _ _ _ Hz), fmap_app, <-app_assoc.
  replace (n - k)%nat with (S (n - S k)) by lia.
  rewrite !alter_app_r_alt by (rewrite length_fmap; lia).
  by rewrite length_fmap, Hlen, Nat.sub_diag.
Qed.

Lemma join_fmap_bind {A B} (f : A → list B) (l : list A) :
  mjoin (f <$> l) = l ≫= f.
Proof. induction l; [done|]. csimpl. by f_equal. Qed.

Lemma join_table {A} (F : nat → nat → list A) H W :
  mjoin (mjoin (table F H W)) = i ← seq 0 H; j ← seq 0 W; F i j.
Proof.
  unfold table. induction (seq 0 H) as [|i li IH]; [done|].
  csimpl. rewrite join_app, IH. f_equal. apply join_fmap_bind.
Qed.

Section anchors_correct.
Variable sqrt : Qc → Qc.

Lemma math_sqrt_Ok x : ¬ x < 0 → math_sqrt sqrt x = Ok (sqrt x).
Proof. unfold math_sqrt. intros. by rewrite decide_False. Qed.

Lemma ratio_anchor_Ok img_shape s0 di h w i r :
  img_shape.1 ≠ 0%Z → img_shape.2 ≠ 0%Z → ratio_ok sqrt r →
  (i + di < length h)%nat → (i + di < length w)%nat →
  ratio_anchor sqrt img_shape s0 di (h, w) (i, r)
  = Ok (<[(i + di)%nat := s0 / Qc_of_Z img_shape.1 / sqrt r]> h,
        <[(i + di)%nat := s0 / Qc_of_Z img_shape.2 * sqrt r]> w).
Proof.
  intros H1 H2 [Hneg Hroot] Hh Hw. unfold ratio_anchor.
  rewrite (truediv_Ok _ _ (Qc_of_Z_nonzero _ H1)), res_bind_Ok.
  rewrite (math_sqrt_Ok _ Hneg), res_bind_Ok.
  rewrite (truediv_Ok _ _ Hroot), res_bind_Ok.
  rewrite setitem_Ok, res_bind_Ok by done.
  rewrite (truediv_Ok _ _ (Qc_of_Z_nonzero _ H2)), res_bind_Ok.
  rewrite res_bind_Ok.
  by rewrite setitem_Ok, res_bind_Ok by done.
Qed.

Lemma ratio_loop img_shape s0 di ratios : ∀ a h w,
  img_shape.1 ≠ 0%Z → img_shape.2 ≠ 0%Z → Forall (ratio_ok sqrt) ratios →
  (a + di + length ratios ≤ length h)%nat →
  (a + di + length ratios ≤ length w)%nat →
  foldlM (ratio_anchor sqrt img_shape s0 di) (h, w)
    (imap (λ i r, ((a + i)%nat, r)) ratios)
  = Ok (take (a + di) h
          ++ ((λ r, s0 / Qc_of_Z img_shape.1 / sqrt r) <$> ratios)
          ++ drop (a + di + length ratios) h,
        take (a + di) w
          ++ ((λ r, s0 / Qc_of_Z img_shape.2 * sqrt r) <$> ratios)
          ++ drop (a + di + length ratios) w).
Proof.
  induction ratios as [|r rs IH]; intros a h w H1 H2 Hr Hh Hw.
  - simpl. rewrite !Nat.add_0_r, !take_drop. done.
  - inv Hr. simpl in Hh, Hw.
    cbn [imap foldlM].
    rewrite ratio_anchor_Ok, res_bind_Ok by (done || lia).
    rewrite (imap_ext _ (λ i r, ((S a + i)%nat, r))); last first.
    { intros i x _. simpl. f_equal. lia. }
    rewrite IH; [|done|done|done|rewrite length_insert; lia..].
    replace (a + 0 + di)%nat with (a + di)%nat by lia.
    replace (S a + di)%nat with (S (a + di)) by lia.
    rewrite (take_S_r (<[_:=_]> h) (a + di) (s0 / Qc_of_Z img_shape.1 / sqrt r))
      by (apply list_lookup_insert_eq; lia).
    rewrite (take_S_r (<[_:=_]> w) (a + di) (s0 / Qc_of_Z img_shape.2 * sqrt r))
      by (apply list_lookup_insert_eq; lia).
    rewrite !take_insert_ge, !drop_insert_lt by lia.
    rewrite <-!app_assoc. simpl.
    by rewrite !Nat.add_succ_r.
Qed.

Lemma anchor_hw_Ok img_shape sizes ratios :
  level_ok sqrt img_shape sizes ratios →
  anchor_hw sqrt img_shape sizes ratios
  = Ok (spec_heights sqrt img_shape sizes ratios,
        spec_widths sqrt img_shape sizes ratios).
Proof.
  intros (H1 & H2 & Hs & Hr). unfold anchor_hw.
  apply Qc_of_Z_nonzero in H1 as H1', H2 as H2'.
  destruct sizes as [|s0 [|s1 [|? ?]]]; try done;
    cbn [getitem lookup list_lookup length Nat.add replicate];
    repeat first
      [ rewrite res_bind_Ok
      | rewrite (truediv_Ok _ _ H1')
      | rewrite (truediv_Ok _ _ H2')
      | rewrite (math_sqrt_Ok _ Hs)
      | rewrite setitem_Ok by (simpl; lia)
      | rewrite decide_False by lia
      | rewrite decide_True by lia ];
    unfold enumerate;
    rewrite (ratio_loop _ _ _ _ 0%nat)
      by (done || simpl; rewrite length_replicate; lia);
    cbn [Nat.add take drop insert list_insert spec_heights spec_widths app];
    by rewrite !drop_replicate, Nat.sub_diag, !app_nil_r.
Qed.

Lemma fill_step_Ok x y h w f H W k wk hk :
  w !! k = Some wk → h !! k = Some hk →
  fill_step (table x H W) (table y H W) h w (table f H W) k
  = Ok (table (λ i j, alter (<[3%nat:=hk]>) k (alter (<[2%nat:=wk]>) k
          (alter (<[1%nat:=y i j]>) k (alter (<[0%nat:=x i j]>) k (f i j))))) H W).
Proof.
  intros Hw Hh. unfold fill_step.
  rewrite (getitem_Ok _ _ _ Hw), res_bind_Ok, (getitem_Ok _ _ _ Hh), res_bind_Ok.
  by rewrite !assign_grid_table, !assign_scalar_table.
Qed.

Lemma fill_loop x y h w n H W m : ∀ k,
  length h = n → length w = n → (k + m ≤ n)%nat →
  foldlM (fill_step (table x H W) (table y H W) h w)
    (table (λ i j, cell h w n k (x i j) (y i j)) H W) (seq k m)
  = Ok (table (λ i j, cell h w n (k + m) (x i j) (y i j)) H W).
Proof.
  induction m as [|m IH]; intros k Hh Hw Hk.
  - by rewrite Nat.add_0_r.
  - cbn [seq foldlM].
    destruct (lookup_lt_is_Some_2 h k) as [hk Hhk]; [lia|].
    destruct (lookup_lt_is_Some_2 w k) as [wk Hwk]; [lia|].
    rewrite (fill_step_Ok _ _ _ _ _ _ _ _ _ _ Hwk Hhk), res_bind_Ok.
    rewrite (table_ext _ (λ i j, cell h w n (S k) (x i j) (y i j))).
    + rewrite IH by lia. by rewrite Nat.add_succ_r.
    + intros. apply cell_step; auto with lia.
Qed.

Lemma fill_anchors_Ok x y h w n H W :
  length h = n → length w = n →
  fill_anchors (H, W) n (table x H W) (table y H W) h w
  = Ok (table (λ i j, (λ '(wd, hd), [x i j; y i j; wd; hd]) <$> zip w h) H W).
Proof.
  intros Hh Hw. unfold fill_anchors. cbn [fst snd].
  rewrite np_zeros4_table.
  rewrite (table_ext _ (λ i j, cell h w n 0 (x i j) (y i j))).
  2:{ intros. unfold cell. by rewrite Nat.sub_0_r. }
  rewrite fill_loop by (done || lia). f_equal. apply table_ext. intros.
  unfold cell. rewrite Nat.sub_diag, app_nil_r, take_ge; [done|].
  rewrite length_zip_with. lia.
Qed.

Lemma spec_shapes_length img_shape sizes ratios :
  level_ok sqrt img_shape sizes ratios →
  length (spec_heights sqrt img_shape sizes ratios)
    = (length sizes + length ratios)%nat ∧
  length (spec_widths sqrt img_shape sizes ratios)
    = (length sizes + length ratios)%nat.
Proof.
  intros (_ & _ & Hs & _).
  destruct sizes as [|s0 [|s1 [|? ?]]]; try done;
    simpl; by rewrite ?length_fmap.
Qed.

Lemma ssd_anchor_one_layer_Ok img_shape feat_shape sizes ratios step offset :
  level_ok sqrt img_shape sizes ratios →
  ssd_anchor_one_layer sqrt img_shape feat_shape sizes ratios step offset
  = Ok (spec_level_anchors sqrt img_shape feat_shape sizes ratios step offset).
Proof.
  intros Hok. destruct feat_shape as [H W]. unfold ssd_anchor_one_layer.
  cbn [fst snd]. rewrite mgrid_table, !grid_centers_table.
  rewrite (anchor_hw_Ok _ _ _ Hok), res_bind_Ok.
  destruct (spec_shapes_length _ _ _ Hok) as [Hh Hw].
  rewrite (fill_anchors_Ok _ _ _ _ _ _ _ Hh Hw), res_bind_Ok.
  unfold reshape_rows. by rewrite join_table.
Qed.

Lemma level_anchors_table img_shape H W sizes ratios step offset :
  spec_level_anchors sqrt img_shape (H, W) sizes ratios step offset
  = mjoin (mjoin (table (λ i j,
      (λ '(wd, hd), [center_x img_shape step offset j;
                     center_y img_shape step offset i; wd; hd])
        <$> zip (spec_widths sqrt img_shape sizes ratios)
                (spec_heights sqrt img_shape sizes ratios)) H W)).
Proof. by rewrite join_table. Qed.

Lemma table_row_lengths {A} (F : nat → nat → A) H W :
  Forall (λ row, length row = W) (table F H W).
Proof.
  unfold table. apply Forall_fmap, Forall_forall. intros i _. simpl.
  by rewrite length_fmap, length_seq.
Qed.

Lemma join_table_lookup {A} (F : nat → nat → A) H W i j :
  (i < H)%nat → (j < W)%nat →
  mjoin (table F H W) !! (i * W + j)%nat = Some (F i j).
Proof.
  intros Hi Hj.
  apply (join_lookup_Some_same_length' W); [apply table_row_lengths|done|].
  pose proof (table_lookup F H W i j Hi Hj) as Hl.
  destruct (table F H W !! i) as [row|]; [|done]. eauto.
Qed.

Lemma join_table_length {A} (F : nat → nat → A) H W :
  length (mjoin (table F H W)) = (H * W)%nat.
Proof.
  rewrite length_join, (sum_list_fmap_same W) by apply table_row_lengths.
  unfold table. by rewrite length_fmap, length_seq.
Qed.

Lemma spec_level_anchors_lookup img_shape H W sizes ratios step offset i j d wd hd :
  level_ok sqrt img_shape sizes ratios →
  (i < H)%nat → (j < W)%nat →
  spec_widths sqrt img_shape sizes ratios !! d = Some wd →
  spec_heights sqrt img_shape sizes ratios !! d = Some hd →
  spec_level_anchors sqrt img_shape (H, W) sizes ratios step offset
    !! ((i * W + j) * (length sizes + length ratios) + d)%nat
  = Some [center_x img_shape step offset j;
          center_y img_shape step offset i; wd; hd].
Proof.
  intros Hok Hi Hj Hw Hh. rewrite level_anchors_table.
  destruct (spec_shapes_length _ _ _ Hok) as [Hlh Hlw].
  apply (join_lookup_Some_same_length' (length sizes + length ratios)).
  - apply Forall_forall. intros cl Hcl.
    apply list_elem_of_lookup in Hcl as [c Hc].
    apply join_lookup_Some in Hc as (a & row & b & Hrow & Hb & _).
    unfold table in Hrow. apply list_lookup_fmap_Some in Hrow as (a1 & -> & _).
    apply list_lookup_fmap_Some in Hb as (b1 & -> & _).
    rewrite length_fmap, length_zip_with. lia.
  - apply lookup_lt_Some in Hh. lia.
  - eexists. split; [by apply join_table_lookup|].
    rewrite list_lookup_fmap, lookup_zip_with, Hw. simpl. by rewrite Hh.
Qed.

Lemma spec_level_anchors_length img_shape feat_shape sizes ratios step offset :
  level_ok sqrt img_shape sizes ratios →
  length (spec_level_anchors sqrt img_shape feat_shape sizes ratios step offset)
  = (feat_shape.1 * feat_shape.2 * (length sizes + length ratios))%nat.
Proof.
  intros Hok. destruct feat_shape as [H W]. rewrite level_anchors_table.
  destruct (spec_shapes_length _ _ _ Hok) as [Hlh Hlw].
  rewrite length_join, (sum_list_fmap_same (length sizes + length ratios)).
  - by rewrite join_table_length.
  - apply Forall_forall. intros cl Hcl.
    apply list_elem_of_lookup in Hcl as [c Hc].
    apply join_lookup_Some in Hc as (a & row & b & Hrow & Hb & _).
    unfold table in Hrow. apply list_lookup_fmap_Some in Hrow as (a1 & -> & _).
    apply list_lookup_fmap_Some in Hb as (b1 & -> & _).
    rewrite length_fmap, length_zip_with. lia.
Qed.

Lemma layers_loop_Ok img_shape layers_shape anchor_sizes anchor_ratios
    anchor_steps offset : ∀ i,
  (i + length layers_shape ≤ length anchor_sizes)%nat →
  (i + length layers_shape ≤ length anchor_ratios)%nat →
  (i + length layers_shape ≤ length anchor_steps)%nat →
  Forall2 (level_ok sqrt img_shape) anchor_sizes anchor_ratios →
  layers_loop sqrt img_shape i layers_shape anchor_sizes anchor_ratios
    anchor_steps offset
  = Ok (zip_with (λ s '(sizes, ratios, step),
                    spec_level_anchors sqrt img_shape s sizes ratios step offset)
          layers_shape
          (drop i (zip (zip anchor_sizes anchor_ratios) anchor_steps))).
Proof.
  induction layers_shape as [|s rest IH]; intros i Hs Hr Ht Hok; [done|].
  simpl in Hs, Hr, Ht. cbn [layers_loop].
  destruct (lookup_lt_is_Some_2 anchor_sizes i) as [sizes Hsizes]; [lia|].
  destruct (lookup_lt_is_Some_2 anchor_ratios i) as [ratios Hratios]; [lia|].
  destruct (lookup_lt_is_Some_2 anchor_steps i) as [step Hstep]; [lia|].
  rewrite (getitem_Ok _ _ _ Hsizes), res_bind_Ok.
  rewrite (getitem_Ok _ _ _ Hratios), res_bind_Ok.
  rewrite (getitem_Ok _ _ _ Hstep), res_bind_Ok.
  rewrite ssd_anchor_one_layer_Ok, res_bind_Ok
    by (eapply Forall2_lookup_lr; eauto).
  rewrite IH, res_bind_Ok by (done || lia).
  rewrite (drop_S _ (sizes, ratios, step) i); [done|].
  rewrite !lookup_zip_with, Hsizes. simpl. rewrite Hratios. simpl.
  by rewrite Hstep.
Qed.

Lemma ssd_anchors_all_layers_Ok img_shape layers_shape anchor_sizes
    anchor_ratios anchor_steps offset :
  config_ok sqrt img_shape layers_shape anchor_sizes anchor_ratios anchor_steps →
  ssd_anchors_all_layers sqrt img_shape layers_shape anchor_sizes
    anchor_ratios anchor_steps offset
  = Ok (spec_all_anchors sqrt img_shape layers_shape anchor_sizes
          anchor_ratios anchor_steps offset).
Proof.
  intros (Hne & Hs & Hr & Ht & Hok). unfold ssd_anchors_all_layers.
  rewrite layers_loop_Ok, res_bind_Ok by (done || lia).
  unfold spec_all_anchors. rewrite drop_0.
  destruct layers_shape as [|s rest]; [done|].
  destruct anchor_sizes as [|sz ?]; [done|].
  destruct anchor_ratios as [|rt ?]; [done|].
  by destruct anchor_steps as [|st ?].
Qed.

Lemma spec_all_anchors_length img_shape layers_shape anchor_sizes
    anchor_ratios anchor_steps offset :
  config_ok sqrt img_shape layers_shape anchor_sizes anchor_ratios anchor_steps →
  length (spec_all_anchors sqrt img_shape layers_shape anchor_sizes
            anchor_ratios anchor_steps offset)
  = spec_anchor_count layers_shape anchor_sizes anchor_ratios.
Proof.
  intros (_ & Hs & Hr & Ht & Hok).
  unfold spec_all_anchors, spec_anchor_count. rewrite length_join. f_equal.
  revert layers_shape anchor_steps Hs Hr Ht.
  induction Hok as [|sz rt szs rts Hlv Hok IH]; intros layers steps Hs Hr Ht.
  - by destruct layers.
  - destruct layers as [|s layers]; [done|].
    destruct steps as [|st steps]; [done|].
    csimpl. rewrite spec_level_anchors_length by done.
    f_equal. apply IH; simpl in *; lia.
Qed.

Lemma spec_level_anchors_rows img_shape feat_shape sizes ratios step offset :
  Forall (λ row, length row = 4%nat)
    (spec_level_anchors sqrt img_shape feat_shape sizes ratios step offset).
Proof.
  unfold spec_level_anchors. apply Forall_bind, Forall_forall. intros i _.
  apply Forall_bind, Forall_forall. intros j _.
  apply Forall_fmap, Forall_forall. by intros [wd hd] _.
Qed.

Lemma spec_all_anchors_rows img_shape layers_shape anchor_sizes anchor_ratios
    anchor_steps offset :
  Forall (λ row, length row = 4%nat)
    (spec_all_anchors sqrt img_shape layers_shape anchor_sizes
       anchor_ratios anchor_steps offset).
Proof.
  unfold spec_all_anchors. apply Forall_join, Forall_forall.
  intros level (s & [[sizes ratios] step] & -> & _ & _)%elem_of_zip_with.
  apply spec_level_anchors_rows.
Qed.

Lemma spec_heights_lookup img_shape sizes ratios s0 :
  level_ok sqrt img_shape sizes ratios → sizes !! 0%nat = Some s0 →
  spec_heights sqrt img_shape sizes ratios !! 0%nat
    = Some (s0 / Qc_of_Z img_shape.1) ∧
  (∀ s1, sizes !! 1%nat = Some s1 →
     spec_heights sqrt img_shape sizes ratios !! 1%nat
       = Some (sqrt (s0 * s1) / Qc_of_Z img_shape.1)) ∧
  (∀ k r, ratios !! k = Some r →
     spec_heights sqrt img_shape sizes ratios !! (length sizes + k)%nat
       = Some (s0 / Qc_of_Z img_shape.1 / sqrt r)).
Proof.
  intros (_ & _ & Hs & _) H0.
  destruct sizes as [|a [|b [|? ?]]]; try done; simplify_eq/=.
  - split_and!; [done|done|]. intros k r Hr.
    by rewrite list_lookup_fmap, Hr.
  - split_and!; [done|by intros ? [= ->]|]. intros k r Hr.
    by rewrite list_lookup_fmap, Hr.
Qed.

Lemma spec_widths_lookup img_shape sizes ratios s0 :
  level_ok sqrt img_shape sizes ratios → sizes !! 0%nat = Some s0 →
  spec_widths sqrt img_shape sizes ratios !! 0%nat
    = Some (s0 / Qc_of_Z img_shape.2) ∧
  (∀ s1, sizes !! 1%nat = Some s1 →
     spec_widths sqrt img_shape sizes ratios !! 1%nat
       = Some (sqrt (s0 * s1) / Qc_of_Z img_shape.2)) ∧
  (∀ k r, ratios !! k = Some r →
     spec_widths sqrt img_shape sizes ratios !! (length sizes + k)%nat
       = Some (s0 / Qc_of_Z img_shape.2 * sqrt r)).
Proof.
  intros (_ & _ & Hs & _) H0.
  destruct sizes as [|a [|b [|? ?]]]; try done; simplify_eq/=.
  - split_and!; [done|done|]. intros k r Hr.
    by rewrite list_lookup_fmap, Hr.
  - split_and!; [done|by intros ? [= ->]|]. intros k r Hr.
    by rewrite list_lookup_fmap, Hr.
Qed.

Lemma level_ok_first_size img_shape sizes ratios :
  level_ok sqrt img_shape sizes ratios → ∃ s0, sizes !! 0%nat = Some s0.
Proof. intros (_ & _ & Hs & _). destruct sizes; [done|]. eauto. Qed.



(** C8.  For every valid configuration the generated anchors are the
    concatenation, in level order, of the per-level arrays, each the
    row-major flattening of its (H, W, num_shapes, 4) array with rows
    [center_x; center_y; width; height]; hence their number is the sum over
    the levels of H_l * W_l * (|sizes_l| + |ratios_l|). *)
Theorem ssd_anchors_all_layers_concat img_shape layers_shape anchor_sizes
    anchor_ratios anchor_steps offset :
  config_ok sqrt img_shape layers_shape anchor_sizes anchor_ratios anchor_steps →
  ssd_anchors_all_layers sqrt img_shape layers_shape anchor_sizes
    anchor_ratios anchor_steps offset
  = Ok (spec_all_anchors sqrt img_shape layers_shape anchor_sizes
          anchor_ratios anchor_steps offset) ∧
  Forall (λ row, length row = 4%nat)
    (spec_all_anchors sqrt img_shape layers_shape anchor_sizes
       anchor_ratios anchor_steps offset) ∧
  length (spec_all_anchors sqrt img_shape layers_shape anchor_sizes
            anchor_ratios anchor_steps offset)
  = spec_anchor_count layers_shape anchor_sizes anchor_ratios.
Proof.
  intros Hok. split_and!.
  - by apply ssd_anchors_all_layers_Ok.
  - apply spec_all_anchors_rows.
  - by apply spec_all_anchors_length.
Qed.

Lemma getitem_take {A} (l : list A) n i :
  (i < n)%nat → getitem (take n l) i = getitem l i.
Proof. unfold getitem. intros. by rewrite lookup_take_lt. Qed.

Lemma getitem_Ok_lt {A} (l : list A) i x :
  getitem l i = Ok x → (i < length l)%nat.
Proof.
  unfold getitem. destruct (l !! i) eqn:Hl; [|done].
  intros _. by eapply lookup_lt_Some.
Qed.

Lemma layers_loop_short img_shape layers_shape anchor_sizes anchor_ratios
    anchor_steps offset : ∀ i,
  (i ≤ length anchor_sizes)%nat → (i ≤ length anchor_ratios)%nat →
  (i ≤ length anchor_steps)%nat →
  (length anchor_sizes < i + length layers_shape
   ∨ length anchor_ratios < i + length layers_shape
   ∨ length anchor_steps < i + length layers_shape)%nat →
  is_Raise (layers_loop sqrt img_shape i layers_shape anchor_sizes
              anchor_ratios anchor_steps offset).
Proof.
  induction layers_shape as [|s rest IH]; intros i H1 H2 H3 Hshort.
  { simpl in Hshort. lia. }
  simpl in Hshort. cbn [layers_loop].
  destruct (getitem anchor_sizes i) as [sizes|e] eqn:Hs; [|by eexists].
  destruct (getitem anchor_ratios i) as [ratios|e] eqn:Hr; [|by eexists].
  destruct (getitem anchor_steps i) as [step|e] eqn:Ht; [|by eexists].
  apply getitem_Ok_lt in Hs, Hr, Ht.
  rewrite !res_bind_Ok.
  destruct (ssd_anchor_one_layer _ _ _ _ _ _ _) as [bboxes|e]; [|by eexists].
  rewrite res_bind_Ok.
  destruct (IH (S i)) as [e He]; [lia..|]. rewrite He. by eexists.
Qed.

Lemma layers_loop_take img_shape layers_shape anchor_sizes anchor_ratios
    anchor_steps offset n : ∀ i,
  (i + length layers_shape ≤ n)%nat →
  layers_loop sqrt img_shape i layers_shape (take n anchor_sizes)
    (take n anchor_ratios) (take n anchor_steps) offset
  = layers_loop sqrt img_shape i layers_shape anchor_sizes anchor_ratios
      anchor_steps offset.
Proof.
  induction layers_shape as [|s rest IH]; intros i Hn; [done|].
  simpl in Hn. cbn [layers_loop].
  rewrite !getitem_take by lia. by rewrite IH by lia.
Qed.

(** C9, as amended.  The squareness check is the assertion of
    [ssd_size_bounds_to_values], which raises [AssertionError] on every
    image shape with height <> width; [ssd_anchors_all_layers] makes no
    such check.  The number of levels is that of [layers_shape]: when one
    of the size, ratio and step lists is shorter the call raises; entries
    beyond the number of levels are never read, so longer lists give the
    result of the lists cut to that number; and every configuration with
    one valid entry per level, square image or not, yields anchors. *)
Theorem anchor_configuration_checks :
  (∀ size_bounds n_feat_layers img_shape,
     img_shape.1 ≠ img_shape.2 →
     ssd_size_bounds_to_values size_bounds n_feat_layers img_shape
       = Raise AssertionError) ∧
  (∀ img_shape layers_shape anchor_sizes anchor_ratios anchor_steps offset,
     (length anchor_sizes < length layers_shape
      ∨ length anchor_ratios < length layers_shape
      ∨ length anchor_steps < length layers_shape)%nat →
     is_Raise (ssd_anchors_all_layers sqrt img_shape layers_shape
                 anchor_sizes anchor_ratios anchor_steps offset)) ∧
  (∀ img_shape layers_shape anchor_sizes anchor_ratios anchor_steps offset,
     ssd_anchors_all_layers sqrt img_shape layers_shape
       (take (length layers_shape) anchor_sizes)
       (take (length layers_shape) anchor_ratios)
       (take (length layers_shape) anchor_steps) offset
     = ssd_anchors_all_layers sqrt img_shape layers_shape
         anchor_sizes anchor_ratios anchor_steps offset) ∧
  (∀ img_shape layers_shape anchor_sizes anchor_ratios anchor_steps offset,
     config_ok sqrt img_shape layers_shape anchor_sizes anchor_ratios
       anchor_steps →
     is_Ok (ssd_anchors_all_layers sqrt img_shape layers_shape
              anchor_sizes anchor_ratios anchor_steps offset)).
Proof.
  split_and!.
  - intros ? ? ? Hne. unfold ssd_size_bounds_to_values.
    by rewrite decide_False.
  - intros ? ? ? ? ? ? Hshort. unfold ssd_anchors_all_layers.
    destruct (layers_loop_short img_shape layers_shape anchor_sizes
                anchor_ratios anchor_steps offset 0%nat
                ltac:(lia) ltac:(lia) ltac:(lia) Hshort) as [e ->].
    by eexists.
  - intros. unfold ssd_anchors_all_layers. by rewrite layers_loop_take.
  - intros ? ? ? ? ? ? Hok. eexists. by apply ssd_anchors_all_layers_Ok.
Qed.
End anchors_correct.

(** A level and a configuration for the examples: a 512 x 256 image,
    sizes 100 and 400, ratios 4 and 1/4. *)
Lemma example_level_ok :
  level_ok rational_sqrt (512, 256)%Z [Qc_of_Z 100; Qc_of_Z 400]
    [Qc_of_Z 4; Q2Qc (1 # 4)].
Proof.
  split_and!; [done|done|by vm_compute|].
  repeat constructor; by vm_compute.
Qed.

Lemma example_config_ok :
  config_ok rational_sqrt (512, 256)%Z [(2, 1)%nat; (1, 1)%nat]
    [[Qc_of_Z 100; Qc_of_Z 400]; [Qc_of_Z 400]]
    [[Qc_of_Z 4; Q2Qc (1 # 4)]; []] [Qc_of_Z 256; Qc_of_Z 512].
Proof.
  split_and!; try done. constructor; [apply example_level_ok|].
  constructor; [|constructor]. split_and!; try done; constructor.
Qed.



(** [ssd_anchors_all_layers_concat] on the example configuration. *)
Lemma ssd_anchors_all_layers_concat_witness :
  config_ok rational_sqrt (512, 256)%Z [(2, 1)%nat; (1, 1)%nat]
    [[Qc_of_Z 100; Qc_of_Z 400]; [Qc_of_Z 400]]
    [[Qc_of_Z 4; Q2Qc (1 # 4)]; []] [Qc_of_Z 256; Qc_of_Z 512] ∧
  ssd_anchors_all_layers rational_sqrt (512, 256)%Z [(2, 1)%nat; (1, 1)%nat]
    [[Qc_of_Z 100; Qc_of_Z 400]; [Qc_of_Z 400]]
    [[Qc_of_Z 4; Q2Qc (1 # 4)]; []] [Qc_of_Z 256; Qc_of_Z 512]
    (Q2Qc (1 # 2))
  = Ok (spec_all_anchors rational_sqrt (512, 256)%Z [(2, 1)%nat; (1, 1)%nat]
          [[Qc_of_Z 100; Qc_of_Z 400]; [Qc_of_Z 400]]
          [[Qc_of_Z 4; Q2Qc (1 # 4)]; []] [Qc_of_Z 256; Qc_of_Z 512]
          (Q2Qc (1 # 2))).
Proof.
  split; [exact example_config_ok|].
  exact (proj1 (ssd_anchors_all_layers_concat rational_sqrt _ _ _ _ _
                  (Q2Qc (1 # 2)) example_config_ok)).
Defined.

(** [anchor_configuration_checks] on a 512 x 256 image shape. *)
Lemma anchor_configuration_checks_witness :
  (512 ≠ 256)%Z ∧
  ssd_size_bounds_to_values (Q2Qc (1 # 10), Q2Qc (9 # 10)) 7 (512, 256)%Z
  = Raise AssertionError.
Proof.
  split; [done|].
  exact (proj1 (anchor_configuration_checks rational_sqrt)
           (Q2Qc (1 # 10), Q2Qc (9 # 10)) 7%Z (512, 256)%Z ltac:(done)).
Defined.

(** C9 does not hold as stated: a 512 x 256 image shape yields anchors,
    and so do size, ratio and step lists longer than the list of levels,
    whose extra entries are ignored. *)
Lemma anchors_accept_unchecked_configuration :
  ssd_anchors_all_layers rational_sqrt (512, 256)%Z [(1, 2)%nat]
    [[Qc_of_Z 100]] [[]] [Qc_of_Z 256] (Q2Qc (1 # 2))
  = Ok [[Q2Qc (1 # 2); Q2Qc (1 # 4); Q2Qc (25 # 64); Q2Qc (25 # 128)];
        [Q2Qc (3 # 2); Q2Qc (1 # 4); Q2Qc (25 # 64); Q2Qc (25 # 128)]] ∧
  ssd_anchors_all_layers rational_sqrt (512, 512)%Z [(1, 1)%nat]
    [[Qc_of_Z 100]; [Qc_of_Z 200]] [[]; [Qc_of_Z 2]; [Qc_of_Z 3]]
    [Qc_of_Z 512; Qc_of_Z 256] (Q2Qc (1 # 2))
  = Ok [[Q2Qc (1 # 2); Q2Qc (1 # 2); Q2Qc (25 # 128); Q2Qc (25 # 128)]].
Proof. split; qc_decide. Qed.

(** ** Hard-negative mining *)





Global Instance flip_Qcle_trans : Transitive (flip Qcle).
Proof. intros x y z Hxy Hyz. unfold flip in *. by etrans. Qed.
Global Instance flip_Qcle_total : Total (flip Qcle).
Proof. intros x y. unfold flip. destruct (total Qcle x y); auto. Qed.
















(** ** The losses *)

Lemma reduce_sum_zeros (l : list Qc) : Forall (.= 0) l → reduce_sum l = 0.
Proof.
  induction 1 as [|x l -> _ IH]; [done|]. simpl. by rewrite IH, Qcplus_0_l.
Qed.

Lemma cast_float_no_pos (row : list Z) :
  Forall (λ g, (g ≤ 0)%Z) row →
  (λ g, bool_decide (0 < g)%Z) <$> row = replicate (length row) false.
Proof.
  induction 1 as [|g row Hg _ IH]; [done|]. csimpl.
  by rewrite IH, bool_decide_eq_false_2 by lia.
Qed.

Lemma reduce_sum_replicate_0 n : reduce_sum (replicate n 0) = 0.
Proof. apply reduce_sum_zeros, Forall_replicate. done. Qed.

Lemma select_img_neg_no_pos negative_ratio img_neg_conf n img_neg_mask :
  select_img_neg negative_ratio img_neg_conf (replicate n false) img_neg_mask
  = Ok (replicate n 0).
Proof.
  unfold select_img_neg. rewrite fmap_replicate. simpl.
  rewrite reduce_sum_replicate_0, decide_False by (by vm_compute).
  unfold mining_no_pos. by rewrite fmap_replicate.
Qed.

Lemma reduce_sum_cast_nonneg (m : list bool) : 0 ≤ reduce_sum (cast_float <$> m).
Proof.
  induction m as [|b m IH]; [done|]. csimpl.
  apply Qcplus_nonneg_nonneg; [by destruct b|done].
Qed.

Lemma trunc_0 : trunc 0 = 0%Z.
Proof. reflexivity. Qed.

Lemma mining_has_pos_no_pos negative_ratio img_neg_conf img_neg_mask :
  mining_has_pos negative_ratio 0 img_neg_conf img_neg_mask
    (cast_float <$> img_neg_mask)
  = Raise InvalidArgumentError.
Proof.
  unfold mining_has_pos. rewrite Qcmult_0_l.
  assert (tf_minimum (reduce_sum (cast_float <$> img_neg_mask)) 0 = 0) as ->.
  { unfold tf_minimum. case_decide as Hle; [|done].
    by apply (anti_symm Qcle); [|apply reduce_sum_cast_nonneg]. }
  rewrite trunc_0. unfold top_k. rewrite decide_True by lia. done.
Qed.

(** C3.  On an image without positive anchors the selection is 0.0 at
    every anchor, whatever the confidences and the ratio; it does not come
    from the top-k path, which on such an image raises. *)
Theorem select_img_neg_without_positives negative_ratio img_neg_conf
    (img_gclasses : list Z) :
  Forall (λ g, (g ≤ 0)%Z) img_gclasses →
  select_img_neg negative_ratio img_neg_conf
    ((λ g, bool_decide (0 < g)%Z) <$> img_gclasses)
    (negb <$> ((λ g, bool_decide (0 < g)%Z) <$> img_gclasses))
  = Ok (replicate (length img_gclasses) 0) ∧
  mining_has_pos negative_ratio
    (reduce_sum (cast_float <$> ((λ g, bool_decide (0 < g)%Z) <$> img_gclasses)))
    img_neg_conf
    (negb <$> ((λ g, bool_decide (0 < g)%Z) <$> img_gclasses))
    (cast_float <$> (negb <$> ((λ g, bool_decide (0 < g)%Z) <$> img_gclasses)))
  = Raise InvalidArgumentError.
Proof.
  intros Hg. rewrite (cast_float_no_pos _ Hg). split.
  - apply select_img_neg_no_pos.
  - rewrite (fmap_replicate cast_float). simpl.
    rewrite reduce_sum_replicate_0. apply mining_has_pos_no_pos.
Qed.

Lemma mapM_res_Ok {A B} (f : A → res B) (g : A → B) (l : list A) :
  Forall (λ x, f x = Ok (g x)) l → mapM f l = Ok (g <$> l).
Proof.
  induction 1 as [|x l Hx _ IH]; [done|].
  cbn [mapM]. rewrite Hx. cbn. rewrite IH. done.
Qed.

Lemma Forall_zip_mid {A B C} (P : B → Prop) (la : list A) (lb : list B)
    (lc : list C) :
  Forall P lb → Forall (λ x, P x.1.2) (zip (zip la lb) lc).
Proof.
  intros Hb. revert la lc.
  induction Hb as [|b lb Hb _ IH]; intros [|a la] [|c lc]; simpl; auto.
Qed.

Lemma selected_neg_no_pos confidences gclasses negative_ratio :
  Forall (Forall (λ g, (g ≤ 0)%Z)) gclasses →
  is_Ok (selected_neg_of confidences gclasses negative_ratio).
Proof.
  intros Hg. unfold selected_neg_of.
  eexists. apply (mapM_res_Ok _ (λ x, replicate (length x.1.2) 0)).
  eapply Forall_impl.
  - apply (Forall_zip_mid (λ pm, ∃ n, pm = replicate n false)).
    unfold pos_mask_of. apply Forall_fmap.
    eapply Forall_impl; [exact Hg|]. intros row Hrow. simpl.
    eexists. by apply cast_float_no_pos.
  - intros [[nv pm] nm] Hpm. cbn [fst snd] in Hpm. destruct Hpm as [n ->].
    cbn beta iota delta [fst snd].
    by rewrite select_img_neg_no_pos, length_replicate.
Qed.

Lemma float_pos_mask_no_pos gclasses :
  Forall (Forall (λ g, (g ≤ 0)%Z)) gclasses →
  reduce_sum2 (float_pos_mask_of gclasses) = 0.
Proof.
  intros Hg. unfold reduce_sum2, float_pos_mask_of, pos_mask_of.
  apply reduce_sum_zeros. rewrite <-!list_fmap_compose.
  apply Forall_fmap. eapply Forall_impl; [exact Hg|].
  intros row Hrow. simpl. rewrite (cast_float_no_pos _ Hrow), fmap_replicate.
  apply reduce_sum_replicate_0.
Qed.









Lemma res_bind_inv {A B} (m : res A) (f : A → res B) b :
  m ≫= f = Ok b → ∃ a, m = Ok a ∧ f a = Ok b.
Proof. destruct m; [eauto|done]. Qed.





Section losses_correct.
Variable xent : list Qc → Z → Qc.

(** C1.  On a batch in which every ground-truth class is 0 both collected
    losses evaluate to exactly 0.0: no error, no NaN, no infinity. *)
Theorem ssd_losses_zero_positive_batch confidences logits localizations
    gclasses glocalizations gscores negative_ratio alpha label_smoothing :
  Forall (Forall (λ g, g = 0%Z)) gclasses →
  ssd_losses xent confidences logits localizations gclasses glocalizations
    gscores negative_ratio alpha label_smoothing
  = {| cls_loss := Ok 0; loc_loss := Ok 0 |}.
Proof.
  intros Hg.
  assert (Forall (Forall (λ g, (g ≤ 0)%Z)) gclasses) as Hle.
  { eapply Forall_impl; [exact Hg|]. intros row Hrow.
    eapply Forall_impl; [exact Hrow|]. intros g ->. done. }
  unfold ssd_losses. rewrite (float_pos_mask_no_pos _ Hle).
  destruct (selected_neg_no_pos confidences gclasses negative_ratio Hle)
    as [sel ->].
  rewrite res_bind_Ok. by rewrite decide_False by (by vm_compute).
Qed.

(** C10.  Both losses are independent of [label_smoothing]: the argument
    is accepted and never read. *)
Theorem ssd_losses_ignores_label_smoothing confidences logits localizations
    gclasses glocalizations gscores negative_ratio alpha
    (label_smoothing label_smoothing' : Qc) :
  ssd_losses xent confidences logits localizations gclasses glocalizations
    gscores negative_ratio alpha label_smoothing
  = ssd_losses xent confidences logits localizations gclasses glocalizations
      gscores negative_ratio alpha label_smoothing'.
Proof. reflexivity. Qed.


End losses_correct.

(** ** The losses on concrete batches *)

(** C2, at the inputs where the code fails.  The mining of an image with a
    positive anchor raises as soon as the number of negatives to select
    truncates to 0: when the image has no negative anchor (first batch: two
    anchors, both positive, ratio 3), and when n_pos * negative_ratio < 1
    (second batch: one positive and three negatives, ratio 1/2).
    [tf.nn.top_k] then returns no value and [val[-1]] is out of range. *)
Theorem mining_raises_when_n_neg_is_zero :
  selected_neg_of
    [[[Q2Qc (1 # 10); Q2Qc (9 # 10)]; [Q2Qc (2 # 10); Q2Qc (8 # 10)]]]
    [[1; 2]]%Z (Qc_of_Z 3)
  = Raise InvalidArgumentError ∧
  selected_neg_of
    [[[Q2Qc (9 # 10); Q2Qc (1 # 10)]; [Q2Qc (8 # 10); Q2Qc (2 # 10)];
      [Q2Qc (7 # 10); Q2Qc (3 # 10)]; [Q2Qc (1 # 10); Q2Qc (9 # 10)]]]
    [[0; 0; 0; 1]]%Z (Q2Qc (1 # 2))
  = Raise InvalidArgumentError ∧
  spec_n_neg [1; 2]%Z (Qc_of_Z 3) = 0%Z ∧
  spec_n_neg [0; 0; 0; 1]%Z (Q2Qc (1 # 2)) = 0%Z.
Proof. split_and!; [qc_decide|qc_decide|by vm_compute|by vm_compute]. Qed.


(** [ssd_losses_zero_positive_batch] on a batch of two images with two
    background anchors each. *)
Lemma ssd_losses_zero_positive_batch_witness :
  Forall (Forall (λ g, g = 0%Z)) [[0; 0]; [0; 0]]%Z ∧
  ssd_losses example_cross_entropy
    [[[Q2Qc (9 # 10); Q2Qc (1 # 10)]; [Q2Qc (3 # 10); Q2Qc (7 # 10)]];
     [[Q2Qc (5 # 10); Q2Qc (5 # 10)]; [Q2Qc (3 # 10); Q2Qc (7 # 10)]]]
    [[[Qc_of_Z 2; Qc_of_Z 0]; [Qc_of_Z 0; Qc_of_Z 1]];
     [[Qc_of_Z 0; Qc_of_Z 0]; [Qc_of_Z 0; Qc_of_Z 1]]]
    [[[1; 1; 1; 1]; [0; 0; 0; 0]]; [[1; 0; 1; 0]; [0; 0; 0; 0]]]
    [[0; 0]; [0; 0]]%Z
    [[[0; 0; 0; 0]; [0; 0; 0; 0]]; [[0; 0; 0; 0]; [0; 0; 0; 0]]]
    [[0; 0]; [0; 0]] (Qc_of_Z 3) 1 0
  = {| cls_loss := Ok 0; loc_loss := Ok 0 |}.
Proof.
  assert (Forall (Forall (λ g, g = 0%Z)) [[0; 0]; [0; 0]]%Z) as H
    by (repeat constructor).
  split; [exact H|].
  exact (ssd_losses_zero_positive_batch example_cross_entropy _ _ _ _ _ _
           _ _ _ H).
Defined.

(** [select_img_neg_without_positives] on an image of three background
    anchors. *)
Lemma select_img_neg_without_positives_witness :
  Forall (λ g, (g ≤ 0)%Z) [0; 0; 0]%Z ∧
  select_img_neg (Qc_of_Z 3) [Q2Qc (9 # 10); Q2Qc (3 # 10); Q2Qc (5 # 10)]
    [false; false; false] [true; true; true]
  = Ok [0; 0; 0].
Proof.
  assert (Forall (λ g, (g ≤ 0)%Z) [0; 0; 0]%Z) as H
    by (repeat constructor; lia).
  split; [exact H|].
  exact (proj1 (select_img_neg_without_positives (Qc_of_Z 3)
                  [Q2Qc (9 # 10); Q2Qc (3 # 10); Q2Qc (5 # 10)] _ H)).
Defined.




(** * Further properties of the code *)

(** ** Reference sizes from relative bounds *)






(** ** Anchors: rows, shapes and errors *)

Lemma truediv_zero x y : y = 0 → truediv x y = Raise ZeroDivisionError.
Proof. unfold truediv. intros. by rewrite decide_True. Qed.

Lemma cell_index_lt i j d H W A :
  (i < H)%nat → (j < W)%nat → (d < A)%nat →
  ((i * W + j) * A + d < H * W * A)%nat.
Proof.
  intros Hi Hj Hd.
  assert (i * W + j + 1 ≤ H * W)%nat as Hcell.
  { assert ((i + 1) * W ≤ H * W)%nat by (apply Nat.mul_le_mono_r; lia). lia. }
  assert ((i * W + j + 1) * A ≤ H * W * A)%nat
    by (apply Nat.mul_le_mono_r; lia).
  lia.
Qed.

Lemma cells_lookup {A} (F : nat → nat → list A) H W n i j d x :
  (∀ i j, length (F i j) = n) →
  (i < H)%nat → (j < W)%nat → F i j !! d = Some x →
  mjoin (mjoin (table F H W)) !! ((i * W + j) * n + d)%nat = Some x.
Proof.
  intros Hn Hi Hj Hd.
  apply (join_lookup_Some_same_length' n).
  - apply Forall_forall. intros cl Hcl.
    apply list_elem_of_lookup in Hcl as [c Hc].
    apply join_lookup_Some in Hc as (a & row & b & Hrow & Hb & _).
    unfold table in Hrow. apply list_lookup_fmap_Some in Hrow as (a1 & -> & _).
    apply list_lookup_fmap_Some in Hb as (b1 & -> & _). apply Hn.
  - apply lookup_lt_Some in Hd. by rewrite Hn in Hd.
  - eexists. split; [by apply join_table_lookup|done].
Qed.

Lemma cells_length {A} (F : nat → nat → list A) H W n :
  (∀ i j, length (F i j) = n) →
  length (mjoin (mjoin (table F H W))) = (H * W * n)%nat.
Proof.
  intros Hn. rewrite length_join, (sum_list_fmap_same n).
  - by rewrite join_table_length.
  - apply Forall_forall. intros cl Hcl.
    apply list_elem_of_lookup in Hcl as [c Hc].
    apply join_lookup_Some in Hc as (a & row & b & Hrow & Hb & _).
    unfold table in Hrow. apply list_lookup_fmap_Some in Hrow as (a1 & -> & _).
    apply list_lookup_fmap_Some in Hb as (b1 & -> & _). apply Hn.
Qed.

Section anchors_more.
Variable sqrt : Qc → Qc.

Lemma levels_prefix_count img_shape offset anchor_sizes anchor_ratios :
  Forall2 (level_ok sqrt img_shape) anchor_sizes anchor_ratios →
  ∀ l layers_shape anchor_steps,
  length anchor_sizes = length layers_shape →
  length anchor_steps = length layers_shape →
  sum_list (length <$> take l
    (zip_with (λ s '(sizes, ratios, step),
                 spec_level_anchors sqrt img_shape s sizes ratios step offset)
       layers_shape (zip (zip anchor_sizes anchor_ratios) anchor_steps)))
  = spec_anchor_count (take l layers_shape) anchor_sizes anchor_ratios.
Proof.
  unfold spec_anchor_count.
  induction 1 as [|sz rt szs rts Hlv Hok IH]; intros l layers steps Hs Ht.
  - destruct layers; [|done]. simpl. by rewrite !take_nil.
  - destruct layers as [|s layers]; [done|].
    destruct steps as [|st steps]; [done|].
    destruct l as [|l]; [done|]. csimpl.
    rewrite spec_level_anchors_length by done.
    f_equal. apply IH; simpl in *; lia.
Qed.

(** X5.  The row of an anchor in the output of [ssd_anchors_all_layers].
    In a valid configuration the anchor number [d] of the cell in row [i]
    and column [j] of level [l] is at row
    (anchors of the levels before [l]) + (i * W + j) * num_anchors + d, as
    [center_x; center_y; width; height] with the centre of that cell and
    the width and height number [d] of that level. *)
Theorem anchor_row_of_level img_shape layers_shape anchor_sizes anchor_ratios
    anchor_steps offset l H W sizes ratios step i j d :
  config_ok sqrt img_shape layers_shape anchor_sizes anchor_ratios anchor_steps →
  layers_shape !! l = Some (H, W) →
  anchor_sizes !! l = Some sizes →
  anchor_ratios !! l = Some ratios →
  anchor_steps !! l = Some step →
  (i < H)%nat → (j < W)%nat → (d < length sizes + length ratios)%nat →
  ∃ anchors h w wd hd,
    ssd_anchors_all_layers sqrt img_shape layers_shape anchor_sizes
      anchor_ratios anchor_steps offset = Ok anchors ∧
    anchor_hw sqrt img_shape sizes ratios = Ok (h, w) ∧
    w !! d = Some wd ∧ h !! d = Some hd ∧
    anchors !! (spec_anchor_count (take l layers_shape) anchor_sizes
                  anchor_ratios
                + (i * W + j) * (length sizes + length ratios) + d)%nat
    = Some [(float_of_nat j + offset) * step / Qc_of_Z img_shape.2;
            (float_of_nat i + offset) * step / Qc_of_Z img_shape.1;
            wd; hd].
Proof.
  intros Hcfg Hl Hsz Hrt Hst Hi Hj Hd.
  pose proof Hcfg as (_ & Hs & Hr & Ht & Hok).
  assert (level_ok sqrt img_shape sizes ratios) as Hlv
    by (eapply Forall2_lookup_lr; eauto).
  destruct (spec_shapes_length sqrt _ _ _ Hlv) as [Hlh Hlw].
  destruct (lookup_lt_is_Some_2 (spec_widths sqrt img_shape sizes ratios) d)
    as [wd Hwd]; [lia|].
  destruct (lookup_lt_is_Some_2 (spec_heights sqrt img_shape sizes ratios) d)
    as [hd Hhd]; [lia|].
  eexists _, _, _, wd, hd. split; [by apply ssd_anchors_all_layers_Ok|].
  split; [by apply anchor_hw_Ok|]. split; [done|]. split; [done|].
  unfold spec_all_anchors. apply join_lookup_Some.
  eexists l, _, _. split_and!.
  - rewrite lookup_zip_with, Hl. simpl.
    rewrite !lookup_zip_with, Hsz. simpl. rewrite Hrt. simpl.
    rewrite Hst. simpl. done.
  - by apply spec_level_anchors_lookup.
  - rewrite levels_prefix_count by done. lia.
Qed.

(** X6.  On a level that the code accepts, every anchor built from a ratio
    has the area of the first anchor of the cell: its width times its
    height is that of anchor 0, whatever the ratio. *)
Theorem ratio_anchors_keep_area img_shape sizes ratios :
  level_ok sqrt img_shape sizes ratios →
  ∃ h w w0 h0,
    anchor_hw sqrt img_shape sizes ratios = Ok (h, w) ∧
    w !! 0%nat = Some w0 ∧ h !! 0%nat = Some h0 ∧
    ∀ k, (k < length ratios)%nat →
      ∃ wd hd, w !! (length sizes + k)%nat = Some wd ∧
               h !! (length sizes + k)%nat = Some hd ∧
               wd * hd = w0 * h0.
Proof.
  intros Hok. destruct (level_ok_first_size sqrt _ _ _ Hok) as [s0 H0].
  destruct (spec_heights_lookup sqrt _ _ _ _ Hok H0) as (Hh0 & _ & Hhr).
  destruct (spec_widths_lookup sqrt _ _ _ _ Hok H0) as (Hw0 & _ & Hwr).
  eexists _, _, _, _. split; [by apply anchor_hw_Ok|].
  split; [done|]. split; [done|]. intros k Hk.
  destruct (lookup_lt_is_Some_2 ratios k) as [r Hr]; [done|].
  eexists _, _. split; [by apply Hwr|]. split; [by apply Hhr|].
  destruct Hok as (H1 & H2 & _ & Hrs).
  assert (ratio_ok sqrt r) as [_ Hroot].
  { eapply Forall_forall; [exact Hrs|]. by eapply list_elem_of_lookup_2. }
  apply Qc_of_Z_nonzero in H1, H2. by field.
Qed.

Lemma math_sqrt_neg x : x < 0 → math_sqrt sqrt x = Raise ValueError.
Proof. unfold math_sqrt. intros. by rewrite decide_True. Qed.

Lemma ratio_anchor_bad img_shape s0 di h w i r :
  img_shape.1 ≠ 0%Z → ¬ ratio_ok sqrt r →
  ratio_anchor sqrt img_shape s0 di (h, w) (i, r)
  = Raise (if decide (r < 0) then ValueError else ZeroDivisionError).
Proof.
  intros H1 Hbad. unfold ratio_anchor.
  rewrite (truediv_Ok _ _ (Qc_of_Z_nonzero _ H1)), res_bind_Ok.
  unfold math_sqrt. destruct (decide (r < 0)) as [|Hneg]; [done|].
  rewrite res_bind_Ok. unfold truediv.
  destruct (decide (sqrt r = 0)) as [|Hroot]; [done|].
  destruct Hbad. by split.
Qed.

Lemma ratio_loop_stops img_shape s0 di pre r post : ∀ a h w,
  img_shape.1 ≠ 0%Z → img_shape.2 ≠ 0%Z → Forall (ratio_ok sqrt) pre →
  ¬ ratio_ok sqrt r →
  (a + di + length pre < length h)%nat →
  (a + di + length pre < length w)%nat →
  foldlM (ratio_anchor sqrt img_shape s0 di) (h, w)
    (imap (λ i r, ((a + i)%nat, r)) (pre ++ r :: post))
  = Raise (if decide (r < 0) then ValueError else ZeroDivisionError).
Proof.
  induction pre as [|p pre IH]; intros a h w H1 H2 Hpre Hbad Hh Hw.
  - cbn [app imap foldlM]. by rewrite ratio_anchor_bad.
  - inv Hpre. simpl in Hh, Hw. cbn [app imap foldlM].
    rewrite ratio_anchor_Ok, res_bind_Ok by (done || lia).
    rewrite (imap_ext _ (λ i r, ((S a + i)%nat, r))); last first.
    { intros i x _. simpl. f_equal. lia. }
    apply IH; [done|done|done|done|rewrite length_insert; lia..].
Qed.

Lemma one_layer_stops img_shape feat_shape step offset sizes pre r post :
  level_ok sqrt img_shape sizes pre → ¬ ratio_ok sqrt r →
  ssd_anchor_one_layer sqrt img_shape feat_shape sizes (pre ++ r :: post)
    step offset
  = Raise (if decide (r < 0) then ValueError else ZeroDivisionError).
Proof.
  intros (H1 & H2 & Hs & Hpre) Hbad.
  unfold ssd_anchor_one_layer; destruct (mgrid _ _) as [y x].
  unfold anchor_hw; apply Qc_of_Z_nonzero in H1 as H1', H2 as H2'.
  destruct sizes as [|s0 [|s1 [|? ?]]]; try done;
    cbn [getitem lookup list_lookup length Nat.add replicate];
    repeat first
      [ rewrite res_bind_Ok
      | rewrite (truediv_Ok _ _ H1')
      | rewrite (truediv_Ok _ _ H2')
      | rewrite (math_sqrt_Ok sqrt _ Hs)
      | rewrite setitem_Ok by (simpl; lia)
      | rewrite decide_False by lia
      | rewrite decide_True by lia ];
    unfold enumerate;
    by rewrite (ratio_loop_stops _ _ _ _ _ _ 0%nat)
      by (done || simpl;
          rewrite ?length_insert, ?length_replicate, ?length_app; simpl; lia).
Qed.

(** X7.  What the anchor generator raises.  [ssd_anchors_all_layers] on no
    level raises [ValueError] ([np.vstack] of an empty list).  On one
    level: no size raises [IndexError]; a zero image side raises
    [ZeroDivisionError]; two sizes of negative product raise [ValueError]
    ([math.sqrt]); and the first ratio that the code does not accept raises
    [ValueError] when it is negative, [ZeroDivisionError] when its root
    is 0. *)
Theorem anchor_generation_errors img_shape feat_shape step offset :
  (∀ anchor_sizes anchor_ratios anchor_steps,
     ssd_anchors_all_layers sqrt img_shape [] anchor_sizes anchor_ratios
       anchor_steps offset
     = Raise ValueError) ∧
  (∀ ratios,
     ssd_anchor_one_layer sqrt img_shape feat_shape [] ratios step offset
     = Raise IndexError) ∧
  (∀ s0 sizes ratios,
     img_shape.1 = 0%Z ∨ img_shape.2 = 0%Z →
     ssd_anchor_one_layer sqrt img_shape feat_shape (s0 :: sizes) ratios
       step offset
     = Raise ZeroDivisionError) ∧
  (∀ s0 s1 sizes ratios,
     img_shape.1 ≠ 0%Z → img_shape.2 ≠ 0%Z → s0 * s1 < 0 →
     ssd_anchor_one_layer sqrt img_shape feat_shape (s0 :: s1 :: sizes) ratios
       step offset
     = Raise ValueError) ∧
  (∀ sizes pre r post,
     level_ok sqrt img_shape sizes pre → r < 0 →
     ssd_anchor_one_layer sqrt img_shape feat_shape sizes (pre ++ r :: post)
       step offset
     = Raise ValueError) ∧
  (∀ sizes pre r post,
     level_ok sqrt img_shape sizes pre → ¬ r < 0 → sqrt r = 0 →
     ssd_anchor_one_layer sqrt img_shape feat_shape sizes (pre ++ r :: post)
       step offset
     = Raise ZeroDivisionError).
Proof.
  split_and!.
  - done.
  - intros ratios. unfold ssd_anchor_one_layer.
    by destruct (mgrid _ _) as [y x].
  - intros s0 sizes ratios Hz. unfold ssd_anchor_one_layer.
    destruct (mgrid _ _) as [y x]. unfold anchor_hw.
    cbn [getitem lookup list_lookup]. rewrite res_bind_Ok.
    destruct (decide (img_shape.1 = 0%Z)) as [Hz1|Hz1].
    + by rewrite (truediv_zero _ (Qc_of_Z img_shape.1))
        by (rewrite Hz1; apply Z2Qc_inj_0).
    + rewrite (truediv_Ok _ _ (Qc_of_Z_nonzero _ Hz1)), res_bind_Ok.
      rewrite setitem_Ok, res_bind_Ok by (simpl; lia).
      destruct Hz as [Hz|Hz]; [done|].
      by rewrite (truediv_zero _ (Qc_of_Z img_shape.2))
        by (rewrite Hz; apply Z2Qc_inj_0).
  - intros s0 s1 sizes ratios H1 H2 Hneg. unfold ssd_anchor_one_layer.
    destruct (mgrid _ _) as [y x]. unfold anchor_hw.
    apply Qc_of_Z_nonzero in H1, H2.
    cbn [getitem lookup list_lookup]. rewrite res_bind_Ok.
    rewrite (truediv_Ok _ _ H1), res_bind_Ok.
    rewrite setitem_Ok, res_bind_Ok by (simpl; lia).
    rewrite (truediv_Ok _ _ H2), res_bind_Ok.
    rewrite setitem_Ok, res_bind_Ok by (simpl; lia).
    rewrite decide_True by (simpl; lia). rewrite res_bind_Ok.
    by rewrite (math_sqrt_neg _ Hneg).
  - intros sizes pre r post Hok Hneg.
    rewrite one_layer_stops by (done || by intros [? _]).
    by rewrite decide_True.
  - intros sizes pre r post Hok Hneg Hroot.
    rewrite one_layer_stops by (done || by intros [_ ?]).
    by rewrite decide_False.
Qed.

Lemma one_layer_cells img_shape H W sizes ratios step offset h w :
  anchor_hw sqrt img_shape sizes ratios = Ok (h, w) →
  length h = (length sizes + length ratios)%nat →
  length w = (length sizes + length ratios)%nat →
  ssd_anchor_one_layer sqrt img_shape (H, W) sizes ratios step offset
  = Ok (mjoin (mjoin (table (λ i j,
          (λ '(wd, hd), [center_x img_shape step offset j;
                         center_y img_shape step offset i; wd; hd])
            <$> zip w h) H W))).
Proof.
  intros Hhw Hh Hw. unfold ssd_anchor_one_layer. cbn [fst snd].
  rewrite mgrid_table, !grid_centers_table. rewrite Hhw, res_bind_Ok.
  by rewrite (fill_anchors_Ok _ _ _ _ _ _ _ Hh Hw), res_bind_Ok.
Qed.

Lemma anchor_hw_extra_sizes img_shape s0 s1 extra ratios :
  img_shape.1 ≠ 0%Z → img_shape.2 ≠ 0%Z → ¬ s0 * s1 < 0 →
  Forall (ratio_ok sqrt) ratios →
  anchor_hw sqrt img_shape (s0 :: s1 :: extra) ratios
  = Ok (spec_heights sqrt img_shape [s0; s1] ratios
          ++ replicate (length extra) 0,
        spec_widths sqrt img_shape [s0; s1] ratios
          ++ replicate (length extra) 0).
Proof.
  intros H1 H2 Hs Hr. unfold anchor_hw.
  apply Qc_of_Z_nonzero in H1 as H1', H2 as H2'.
  cbn [getitem lookup list_lookup length].
  repeat first
    [ rewrite res_bind_Ok
    | rewrite (truediv_Ok _ _ H1')
    | rewrite (truediv_Ok _ _ H2')
    | rewrite (math_sqrt_Ok sqrt _ Hs)
    | rewrite setitem_Ok by (simpl; lia)
    | rewrite decide_True by lia ].
  unfold enumerate.
  rewrite (ratio_loop sqrt _ _ _ _ 0%nat)
    by (done || rewrite ?length_insert, length_replicate; simpl; lia).
  cbn [Nat.add replicate take drop insert list_insert spec_heights
       spec_widths app length].
  rewrite !drop_replicate.
  replace (length extra + length ratios - length ratios)%nat
    with (length extra) by lia.
  by rewrite !take_0.
Qed.

(** X8.  Sizes beyond the second are never read, yet each adds an anchor
    to every cell: with sizes [s0; s1; ...] the anchors after those of the
    ratios keep the width 0 and the height 0 of the array they were
    allocated in. *)
Theorem extra_sizes_give_empty_anchors img_shape H W s0 s1 extra ratios
    step offset i j e :
  img_shape.1 ≠ 0%Z → img_shape.2 ≠ 0%Z → ¬ s0 * s1 < 0 →
  Forall (ratio_ok sqrt) ratios →
  (i < H)%nat → (j < W)%nat → (e < length extra)%nat →
  ∃ anchors,
    ssd_anchor_one_layer sqrt img_shape (H, W) (s0 :: s1 :: extra) ratios
      step offset = Ok anchors ∧
    length anchors
      = (H * W * (length (s0 :: s1 :: extra) + length ratios))%nat ∧
    anchors !! ((i * W + j) * (length (s0 :: s1 :: extra) + length ratios)
                + (2 + length ratios + e))%nat
    = Some [(float_of_nat j + offset) * step / Qc_of_Z img_shape.2;
            (float_of_nat i + offset) * step / Qc_of_Z img_shape.1; 0; 0].
Proof.
  intros H1 H2 Hs Hr Hi Hj He.
  pose proof (anchor_hw_extra_sizes img_shape s0 s1 extra ratios H1 H2 Hs Hr)
    as Hhw.
  set (h := spec_heights sqrt img_shape [s0; s1] ratios
              ++ replicate (length extra) 0) in *.
  set (w := spec_widths sqrt img_shape [s0; s1] ratios
              ++ replicate (length extra) 0) in *.
  assert (length (spec_heights sqrt img_shape [s0; s1] ratios)
          = (2 + length ratios)%nat) as Hlh0
    by (simpl; by rewrite length_fmap).
  assert (length (spec_widths sqrt img_shape [s0; s1] ratios)
          = (2 + length ratios)%nat) as Hlw0
    by (simpl; by rewrite length_fmap).
  assert (length h = (length (s0 :: s1 :: extra) + length ratios)%nat) as Hlh.
  { unfold h. rewrite length_app, Hlh0, length_replicate. simpl. lia. }
  assert (length w = (length (s0 :: s1 :: extra) + length ratios)%nat) as Hlw.
  { unfold w. rewrite length_app, Hlw0, length_replicate. simpl. lia. }
  eexists. split; [by apply one_layer_cells|]. split.
  - apply cells_length. intros. rewrite length_fmap, length_zip_with. lia.
  - apply cells_lookup; [|done|done|].
    + intros. rewrite length_fmap, length_zip_with. lia.
    + rewrite list_lookup_fmap, lookup_zip_with. unfold w, h.
      rewrite !lookup_app_r by lia. rewrite Hlh0, Hlw0.
      replace (2 + length ratios + e - (2 + length ratios))%nat with e by lia.
      by rewrite lookup_replicate_2.
Qed.
End anchors_more.

(** [anchor_row_of_level] on the example configuration: the only anchor of
    the second level comes after the 8 anchors of the first. *)
Lemma anchor_row_of_level_witness :
  ∃ anchors wd hd,
    ssd_anchors_all_layers rational_sqrt (512, 256)%Z [(2, 1)%nat; (1, 1)%nat]
      [[Qc_of_Z 100; Qc_of_Z 400]; [Qc_of_Z 400]]
      [[Qc_of_Z 4; Q2Qc (1 # 4)]; []] [Qc_of_Z 256; Qc_of_Z 512]
      (Q2Qc (1 # 2)) = Ok anchors ∧
    anchors !! 8%nat
    = Some [(float_of_nat 0 + Q2Qc (1 # 2)) * Qc_of_Z 512 / Qc_of_Z 256;
            (float_of_nat 0 + Q2Qc (1 # 2)) * Qc_of_Z 512 / Qc_of_Z 512;
            wd; hd].
Proof.
  destruct (anchor_row_of_level rational_sqrt _ _ _ _ _ (Q2Qc (1 # 2))
              1%nat 1%nat 1%nat [Qc_of_Z 400] [] (Qc_of_Z 512)
              0%nat 0%nat 0%nat example_config_ok
              eq_refl eq_refl eq_refl eq_refl
              ltac:(lia) ltac:(lia) ltac:(simpl; lia))
    as (anchors & h & w & wd & hd & Hall & _ & _ & _ & Hrow).
  by exists anchors, wd, hd.
Defined.

(** [ratio_anchors_keep_area] on the example level. *)
Lemma ratio_anchors_keep_area_witness :
  ∃ h w w0 h0,
    anchor_hw rational_sqrt (512, 256)%Z [Qc_of_Z 100; Qc_of_Z 400]
      [Qc_of_Z 4; Q2Qc (1 # 4)] = Ok (h, w) ∧
    w !! 0%nat = Some w0 ∧ h !! 0%nat = Some h0 ∧
    ∃ wd hd, w !! 3%nat = Some wd ∧ h !! 3%nat = Some hd ∧
             wd * hd = w0 * h0.
Proof.
  destruct (ratio_anchors_keep_area rational_sqrt _ _ _ example_level_ok)
    as (h & w & w0 & h0 & Hhw & Hw0 & Hh0 & Harea).
  exists h, w, w0, h0. split_and!; [done..|].
  apply (Harea 1%nat). simpl. lia.
Defined.

(** [anchor_generation_errors] on an image shape of height 0. *)
Lemma anchor_generation_errors_witness :
  ssd_anchor_one_layer rational_sqrt (0, 512)%Z (2, 2)%nat [Qc_of_Z 100] []
    (Qc_of_Z 256) (Q2Qc (1 # 2))
  = Raise ZeroDivisionError.
Proof.
  exact (proj1 (proj2 (proj2 (anchor_generation_errors rational_sqrt
                                (0, 512)%Z (2, 2)%nat (Qc_of_Z 256)
                                (Q2Qc (1 # 2)))))
           (Qc_of_Z 100) [] [] (or_introl eq_refl)).
Defined.

(** [extra_sizes_give_empty_anchors] on three sizes and one ratio: the
    fourth anchor of the cell in row 0, column 1. *)
Lemma extra_sizes_give_empty_anchors_witness :
  ∃ anchors,
    ssd_anchor_one_layer rational_sqrt (512, 256)%Z (1, 2)%nat
      [Qc_of_Z 100; Qc_of_Z 400; Qc_of_Z 900] [Qc_of_Z 4]
      (Qc_of_Z 256) (Q2Qc (1 # 2)) = Ok anchors ∧
    length anchors = 8%nat ∧
    anchors !! 7%nat
    = Some [(float_of_nat 1 + Q2Qc (1 # 2)) * Qc_of_Z 256 / Qc_of_Z 256;
            (float_of_nat 0 + Q2Qc (1 # 2)) * Qc_of_Z 256 / Qc_of_Z 512;
            0; 0].
Proof.
  assert (Forall (ratio_ok rational_sqrt) [Qc_of_Z 4]) as Hr
    by (repeat constructor; by vm_compute).
  exact (extra_sizes_give_empty_anchors rational_sqrt (512, 256)%Z
           1%nat 2%nat (Qc_of_Z 100) (Qc_of_Z 400) [Qc_of_Z 900] [Qc_of_Z 4]
           (Qc_of_Z 256) (Q2Qc (1 # 2)) 0%nat 1%nat 0%nat
           ltac:(done) ltac:(done) ltac:(by vm_compute) Hr
           ltac:(lia) ltac:(lia) ltac:(simpl; lia)).
Defined.

(** ** Static shapes *)

Lemma mapM_res_Forall2 {A B} (f : A → res B) (l : list A) (k : list B) :
  Forall2 (λ x y, f x = Ok y) l k → mapM f l = Ok k.
Proof.
  induction 1 as [|x y l k Hxy _ IH]; [done|].
  cbn [mapM]. by rewrite Hxy, res_bind_Ok, IH.
Qed.

Lemma feat_shapes_loop_known {D} (default_shapes : D) predictions :
  ∀ feat_shapes,
  Forall (λ p, is_Some p ∧ None ∉ feat_shape_of p) predictions →
  feat_shapes_loop predictions default_shapes feat_shapes
  = Ok (inl (feat_shapes ++ (feat_shape_of <$> predictions))).
Proof.
  induction predictions as [|p ps IH]; intros acc Hall.
  - by rewrite app_nil_r.
  - inv Hall. destruct H1 as [[dims ->] Hknown]. cbn [feat_shapes_loop as_list].
    rewrite res_bind_Ok. unfold feat_shape_of in Hknown. simpl in Hknown.
    rewrite decide_False by done. rewrite IH by done.
    by rewrite <-app_assoc.
Qed.

(** X9.  When every prediction has a known rank and known dimensions on
    the axes 1 to 3, [ssd_feat_shapes_from_net] returns these dimensions,
    one list per prediction in their order, and not [default_shapes]; the
    batch dimension and the axes from 4 on may be unknown. *)
Theorem feat_shapes_from_known_predictions {D} (default_shapes : D)
    (predictions : list TensorShape) :
  Forall (λ p, is_Some p ∧ None ∉ feat_shape_of p) predictions →
  ssd_feat_shapes_from_net predictions default_shapes
  = Ok (inl (feat_shape_of <$> predictions)).
Proof.
  intros Hall. unfold ssd_feat_shapes_from_net.
  by rewrite feat_shapes_loop_known.
Qed.

Lemma feat_shapes_loop_stops {D} (default_shapes : D) pre p post :
  ∀ feat_shapes,
  Forall (λ p, is_Some p ∧ None ∉ feat_shape_of p) pre →
  feat_shapes_loop (pre ++ p :: post) default_shapes feat_shapes
  = match p with
    | None => Raise ValueError
    | Some _ =>
        if decide (None ∈ feat_shape_of p) then Ok (inr default_shapes)
        else feat_shapes_loop post default_shapes
               (feat_shapes ++ (feat_shape_of <$> pre) ++ [feat_shape_of p])
    end.
Proof.
  induction pre as [|q pre IH]; intros acc Hall.
  - destruct p as [dims|]; [|done]. cbn [app feat_shapes_loop as_list].
    rewrite res_bind_Ok. unfold feat_shape_of. simpl.
    by destruct (decide (None ∈ slice dims 1 4)).
  - inv Hall. destruct H1 as [[dims ->] Hknown].
    cbn [app feat_shapes_loop as_list].
    rewrite res_bind_Ok. unfold feat_shape_of in Hknown. simpl in Hknown.
    rewrite decide_False by done. rewrite IH by done.
    destruct p; [|done]. case_decide; [done|].
    by rewrite <-app_assoc.
Qed.

(** X10.  [ssd_feat_shapes_from_net] stops at the first prediction that is
    not fully known on the axes 1 to 3: it returns [default_shapes] as it
    was given, dropping the shapes collected so far and without looking at
    the predictions that follow; when that prediction has no known rank,
    [as_list] raises [ValueError]. *)
Theorem feat_shapes_default_on_unknown {D} (default_shapes : D)
    (pre post : list TensorShape) (p : TensorShape) :
  Forall (λ p, is_Some p ∧ None ∉ feat_shape_of p) pre →
  (is_Some p → None ∈ feat_shape_of p →
   ssd_feat_shapes_from_net (pre ++ p :: post) default_shapes
   = Ok (inr default_shapes)) ∧
  (p = None →
   ssd_feat_shapes_from_net (pre ++ p :: post) default_shapes
   = Raise ValueError).
Proof.
  intros Hpre. unfold ssd_feat_shapes_from_net.
  rewrite feat_shapes_loop_stops by done. split.
  - intros [dims ->] Hin. by rewrite decide_True.
  - by intros ->.
Qed.

(** [feat_shapes_from_known_predictions] on two predictions of unknown
    batch size. *)
Lemma feat_shapes_from_known_predictions_witness :
  ssd_feat_shapes_from_net
    [Some [None; Some 64; Some 64; Some 4; Some 2];
     Some [None; Some 32; Some 32; Some 6; Some 2]]%nat
    (@None (list (nat * nat)))
  = Ok (inl [[Some 64; Some 64; Some 4]; [Some 32; Some 32; Some 6]]%nat).
Proof.
  apply (feat_shapes_from_known_predictions (@None (list (nat * nat)))).
  repeat constructor; by (eexists || qc_decide).
Defined.

(** [feat_shapes_default_on_unknown] on a second prediction of unknown
    height and width, followed by one of unknown rank. *)
Lemma feat_shapes_default_on_unknown_witness :
  ssd_feat_shapes_from_net
    [Some [None; Some 64; Some 64; Some 4; Some 2];
     Some [None; None; None; Some 6; Some 2]; None]%nat
    [(64, 64); (32, 32)]%nat
  = Ok (inr [(64, 64); (32, 32)]%nat).
Proof.
  apply (proj1 (feat_shapes_default_on_unknown [(64, 64); (32, 32)]%nat
                  [Some [None; Some 64; Some 64; Some 4; Some 2]]%nat [None]
                  (Some [None; None; None; Some 6; Some 2]%nat)
                  ltac:(repeat constructor; by (eexists || qc_decide)))).
  - by eexists.
  - qc_decide.
Defined.

Lemma fully_defined_Some (dims : list (option nat)) (ns : list nat) :
  mapM id dims = Some ns ↔ dims = Some <$> ns.
Proof.
  revert ns. induction dims as [|[n|] dims IH]; intros ns; csimpl.
  - split; [intros [= <-]|intros Heq]; [done|]. by destruct ns.
  - destruct (mapM id dims) as [ms|] eqn:Hm; csimpl.
    + split.
      * intros [= <-]. csimpl. f_equal. by apply IH.
      * destruct ns as [|m ns]; [done|]. csimpl. intros [= -> Hd].
        apply IH in Hd. by injection Hd as ->.
    + split; [done|]. destruct ns as [|m ns]; [done|]. csimpl.
      intros [= -> Hd]. by apply IH in Hd.
  - split; [done|]. by destruct ns.
Qed.

Lemma fully_defined_fmap (ns : list nat) :
  fully_defined (Some (Some <$> ns)) = Some ns.
Proof. unfold fully_defined. simpl. by apply fully_defined_Some. Qed.

Lemma fully_defined_None (dims : list (option nat)) :
  fully_defined (Some dims) = None ↔ None ∈ dims.
Proof.
  unfold fully_defined. simpl.
  induction dims as [|[n|] dims IH]; csimpl.
  - split; [done|]. by intros ?%elem_of_nil.
  - rewrite elem_of_cons.
    destruct (mapM id dims) as [ms|]; csimpl.
    + split; [done|]. intros [?|Hin]; [done|]. by apply IH in Hin.
    + split; [right; by apply IH|done].
  - split; [intros _; by left|done].
Qed.

(** X11.  [tensor_shape] on a shape of known rank.  A fully defined shape
    is returned as Python ints whatever [rank] is; a shape with an unknown
    dimension raises [ValueError] unless its rank is [rank], and then each
    unknown dimension is replaced by the matching output of [tf.unstack].
    So [tensor_shape(gclasses)[0]] at line 604, called with the default
    rank 3 on the 2-D [gclasses], is an int when both dimensions are
    static and raises [ValueError] otherwise. *)
Theorem tensor_shape_static (dims : list (option nat)) (rank : nat) :
  (∀ ns, dims = Some <$> ns →
     tensor_shape (Some dims) rank = Ok (Static <$> ns)) ∧
  (None ∈ dims → length dims ≠ rank →
     tensor_shape (Some dims) rank = Raise ValueError) ∧
  (None ∈ dims → length dims = rank →
     tensor_shape (Some dims) rank
     = Ok (merge_shapes dims (Dynamic rank <$> seq 0 rank))) ∧
  (∀ b a : option nat,
     batch_size_of (Some [b; a])
     = match b, a with
       | Some n, Some _ => Ok (Static n)
       | _, _ => Raise ValueError
       end).
Proof.
  split_and!.
  - intros ns ->. unfold tensor_shape. by rewrite fully_defined_fmap.
  - intros Hin Hlen. apply fully_defined_None in Hin.
    unfold tensor_shape. rewrite Hin. unfold with_rank.
    by rewrite decide_False.
  - intros Hin Hlen. apply fully_defined_None in Hin.
    unfold tensor_shape. rewrite Hin. unfold with_rank, unstack_shape.
    by rewrite !decide_True.
  - by intros [n|] [m|].
Qed.

(** [tensor_shape_static] on a 2-D shape of unknown batch size, with the
    default rank 3. *)
Lemma tensor_shape_static_witness :
  tensor_shape (Some [None; Some 1000%nat]) 3 = Raise ValueError.
Proof.
  exact (proj1 (proj2 (tensor_shape_static [None; Some 1000%nat] 3))
           ltac:(qc_decide) ltac:(simpl; lia)).
Defined.

(** X12.  What [tensor_shape] returns denotes the run-time shape: for a
    tensor whose run-time shape agrees with its static shape (and has
    [rank] axes when the static rank is unknown), the entries of the
    result evaluate, in order, to the run-time dimensions. *)
Theorem tensor_shape_values (x : TensorShape) (rank : nat)
    (runtime : list nat) (ds : list dim) :
  compatible x runtime →
  (x = None → length runtime = rank) →
  tensor_shape x rank = Ok ds →
  mapM (dim_value runtime) ds = Ok runtime.
Proof.
  intros Hcompat Hrank Hds. unfold tensor_shape in Hds.
  destruct (fully_defined x) as [ns|] eqn:Hfd.
  - injection Hds as <-. destruct x as [dims|]; [|done].
    unfold fully_defined in Hfd. simpl in Hfd.
    apply fully_defined_Some in Hfd as ->. simpl in Hcompat.
    apply mapM_res_Forall2, Forall2_fmap_l.
    eapply Forall2_impl; [apply Forall2_fmap_l in Hcompat; exact Hcompat|].
    intros n r Hn. simpl. f_equal. symmetry. by apply Hn.
  - apply res_bind_inv in Hds as (static & Hstatic & Hds).
    apply res_bind_inv in Hds as (dynamic & Hdyn & Hds).
    injection Hds as <-.
    assert (length runtime = rank ∧ length static = rank
            ∧ dynamic = Dynamic rank <$> seq 0 rank
            ∧ Forall2 (λ s r, ∀ n, s = Some n → r = n) static runtime)
      as (Hlr & Hls & -> & Hc).
    { destruct x as [dims|]; simpl in *.
      - unfold with_rank in Hstatic. case_decide as Hlen; [|done].
        simpl in Hstatic. injection Hstatic as <-.
        rewrite ?decide_True in Hdyn by done. injection Hdyn as <-.
        apply Forall2_length in Hcompat as Hl. split_and!; [lia|done|done|done].
      - injection Hstatic as <-. injection Hdyn as <-.
        rewrite length_replicate. split_and!; [auto|done|done|].
        apply Forall2_same_length_lookup_2.
        + rewrite length_replicate. symmetry. auto.
        + intros i s r [-> _]%lookup_replicate _ n. done. }
    apply mapM_res_Forall2, Forall2_same_length_lookup_2.
    { unfold merge_shapes. rewrite length_zip_with, length_fmap, length_seq. lia. }
    intros i d r Hd Hr. unfold merge_shapes in Hd.
    apply lookup_zip_with_Some in Hd as (s & dy & -> & Hs & Hdy).
    apply list_lookup_fmap_Some in Hdy as (k & -> & Hk).
    apply lookup_seq in Hk as [-> Hi]. simpl.
    destruct s as [n|]; simpl.
    + f_equal. symmetry. by eapply (Forall2_lookup_lr _ _ _ _ _ _ Hc Hs Hr).
    + rewrite decide_True by done. by apply getitem_Ok.
Qed.

(** [tensor_shape_values] on a shape of unknown batch size that is 8 at run
    time. *)
Lemma tensor_shape_values_witness :
  tensor_shape (Some [None; Some 5; Some 4]%nat) 3
    = Ok [Dynamic 3 0; Static 5; Static 4] ∧
  mapM (dim_value [8; 5; 4]%nat) [Dynamic 3 0; Static 5; Static 4]
    = Ok [8; 5; 4]%nat.
Proof.
  split; [reflexivity|].
  apply (tensor_shape_values (Some [None; Some 5; Some 4]%nat) 3).
  - repeat constructor; by intros ? [= <-].
  - done.
  - reflexivity.
Defined.

(** X13.  [layer_shape] returns the shape of a layer of known rank only
    when that shape is fully defined: otherwise [with_rank(4)] or
    [tf.unstack(tf.shape(layer), 3)], which asks for 3 outputs of a vector
    of length 4, raises [ValueError]. *)
Theorem layer_shape_needs_static_shape (dims : list (option nat))
    (ds : list dim) :
  layer_shape (Some dims) = Ok ds
  ↔ ∃ ns, dims = Some <$> ns ∧ ds = Static <$> ns.
Proof.
  unfold layer_shape. split.
  - destruct (fully_defined (Some dims)) as [ns|] eqn:Hfd.
    + intros [= <-]. exists ns. split; [|done].
      by apply fully_defined_Some.
    + unfold with_rank, unstack_shape.
      destruct (decide (length dims = 4%nat)) as [Hlen|Hlen]; [|done].
      simpl. by rewrite decide_False by lia.
  - intros (ns & -> & ->). by rewrite fully_defined_fmap.
Qed.

(** ** Prediction tensors *)

Lemma prediction_get_shape B K t :
  prediction B K t → get_shape t = Ok (B, K).
Proof. intros (_ & h & w & a & Hs). unfold get_shape. by rewrite Hs. Qed.

Lemma prediction_num_elements B K t :
  prediction B K t →
  num_elements (shape t) = (B * K * anchors_of t)%nat.
Proof.
  intros (_ & h & w & a & Hs). unfold anchors_of. rewrite Hs. simpl. lia.
Qed.

Lemma prediction_reshape B K t :
  (0 < B)%nat → (0 < K)%nat → prediction B K t →
  tf_reshape t (B, K) = Ok (Tensor [B; anchors_of t; K] (entries t)).
Proof.
  intros HB HK Hp. unfold tf_reshape.
  rewrite decide_False by nia.
  rewrite (prediction_num_elements _ _ _ Hp).
  assert ((B * K * anchors_of t) `div` (B * K) = anchors_of t)%nat as ->
    by (rewrite Nat.mul_comm; apply Nat.div_mul; nia).
  by rewrite decide_True by lia.
Qed.

Lemma reshaped_all B K tensors :
  (0 < B)%nat → (0 < K)%nat → Forall (prediction B K) tensors →
  (mapM get_shape tensors
   ≫= λ shapes, mapM (λ '(t, s), tf_reshape t s) (zip tensors shapes))
  = Ok ((λ t, Tensor [B; anchors_of t; K] (entries t)) <$> tensors).
Proof.
  intros HB HK Hall. induction Hall as [|t ts Ht _ IH]; [done|].
  cbn [mapM]. rewrite (prediction_get_shape _ _ _ Ht), res_bind_Ok.
  destruct (mapM get_shape ts) as [shapes|e]; [|done].
  rewrite !res_bind_Ok in *. cbn [zip zip_with mapM].
  rewrite (prediction_reshape _ _ _ HB HK Ht), res_bind_Ok.
  by rewrite IH.
Qed.

Lemma block_reshaped B K t b :
  block (Tensor [B; anchors_of t; K] (entries t)) b
  = take (anchors_of t * K) (drop (b * (anchors_of t * K)) (entries t)).
Proof. done. Qed.

Lemma block_length B K t b :
  prediction B K t → (b < B)%nat →
  length (block (Tensor [B; anchors_of t; K] (entries t)) b)
  = (anchors_of t * K)%nat.
Proof.
  intros Hp Hb. rewrite block_reshaped, length_take, length_drop.
  destruct Hp as [Hwf Hs]. rewrite Hwf.
  rewrite (prediction_num_elements B K t (conj Hwf Hs)). nia.
Qed.

Lemma image_blocks_length B K tensors b :
  Forall (prediction B K) tensors → (b < B)%nat →
  length (t ← ((λ t, Tensor [B; anchors_of t; K] (entries t)) <$> tensors);
          block t b)
  = (sum_list (anchors_of <$> tensors) * K)%nat.
Proof.
  intros Hall Hb. induction Hall as [|t ts Ht _ IH]; [done|].
  csimpl. rewrite length_app, IH, (block_length B K) by done. lia.
Qed.

Lemma axis1_sum B K tensors :
  sum_list ((λ t, default 0%nat (shape t !! 1%nat))
            <$> ((λ t, Tensor [B; anchors_of t; K] (entries t)) <$> tensors))
  = sum_list (anchors_of <$> tensors).
Proof. by rewrite <-list_fmap_compose. Qed.

Lemma reshape_and_concat_Ok B K tensors :
  (0 < B)%nat → (0 < K)%nat → tensors ≠ [] →
  Forall (prediction B K) tensors →
  reshape_and_concat tensors
  = Ok (Tensor [B; sum_list (anchors_of <$> tensors); K]
          (b ← seq 0 B;
           t ← ((λ t, Tensor [B; anchors_of t; K] (entries t)) <$> tensors);
           block t b)).
Proof.
  intros HB HK Hne Hall. unfold reshape_and_concat.
  rewrite <-(axis1_sum B K).
  pose proof (reshaped_all B K tensors HB HK Hall) as Hr.
  destruct (mapM get_shape tensors) as [shapes|e] eqn:Hshapes; [|done].
  rewrite ?res_bind_Ok in Hr. rewrite ?res_bind_Ok. rewrite Hr, res_bind_Ok.
  assert (Forall (λ t, <[1%nat:=0%nat]> (shape t) = [B; 0%nat; K])
            ((λ t, Tensor [B; anchors_of t; K] (entries t)) <$> tensors))
    as Hsame by (apply Forall_fmap, Forall_forall; by intros).
  destruct tensors as [|t0 ts]; [done|]. unfold tf_concat.
  cbn [fmap list_fmap shape] in *. by rewrite decide_True.
Qed.

Lemma bind_lookup_uniform {A B} (f : A → list B) (l : list A) n i x r :
  Forall (λ a, length (f a) = n) l →
  l !! i = Some x → (r < n)%nat →
  (l ≫= f) !! (i * n + r)%nat = f x !! r.
Proof.
  intros Hlen Hi Hr. rewrite <-join_fmap_bind.
  destruct (lookup_lt_is_Some_2 (f x) r) as [y Hy].
  { rewrite Forall_forall in Hlen. rewrite (Hlen x); [done|].
    by eapply list_elem_of_lookup_2. }
  rewrite Hy. apply (join_lookup_Some_same_length' n).
  - by apply Forall_fmap.
  - done.
  - exists (f x). by rewrite list_lookup_fmap, Hi.
Qed.

Lemma bind_lookup_offset {A B} (f : A → list B) (l : list A) i x r :
  l !! i = Some x → (r < length (f x))%nat →
  (l ≫= f) !! (sum_list ((λ a, length (f a)) <$> take i l) + r)%nat = f x !! r.
Proof.
  intros Hi Hr. rewrite <-join_fmap_bind.
  destruct (lookup_lt_is_Some_2 (f x) r) as [y Hy]; [done|].
  rewrite Hy. apply join_lookup_Some.
  exists i, (f x), r. split_and!; [by rewrite list_lookup_fmap, Hi|done|].
  by rewrite <-fmap_take, <-list_fmap_compose.
Qed.

Lemma prefix_blocks_length B K tensors l b :
  Forall (prediction B K) tensors → (b < B)%nat →
  sum_list ((λ t, length (block t b))
            <$> take l ((λ t, Tensor [B; anchors_of t; K] (entries t))
                        <$> tensors))
  = (sum_list (anchors_of <$> take l tensors) * K)%nat.
Proof.
  intros Hall Hb. revert l.
  induction Hall as [|t ts Ht _ IH]; intros [|l]; try done.
  csimpl. rewrite IH, (block_length B K) by done. lia.
Qed.

(** X14.  [reshape_and_concat] on prediction tensors of shapes
    (B, H_l, W_l, A_l, K), with B > 0 and K > 0: the result has shape
    (B, sum of H_l * W_l * A_l, K), and the entry [c] of the anchor [d] of
    the cell (i, j) of level [l] in image [b] is found at row
    (anchors of the levels before [l]) + (i * W_l + j) * A_l + d of that
    image: level after level, each in row-major order. *)
Theorem reshape_and_concat_layout B K tensors :
  (0 < B)%nat → (0 < K)%nat → tensors ≠ [] →
  Forall (prediction B K) tensors →
  ∃ r,
    reshape_and_concat tensors = Ok r ∧
    shape r = [B; sum_list (anchors_of <$> tensors); K] ∧
    well_formed r ∧
    ∀ l t H W A b i j d c,
      tensors !! l = Some t → shape t = [B; H; W; A; K] →
      (b < B)%nat → (i < H)%nat → (j < W)%nat → (d < A)%nat → (c < K)%nat →
      entries r !! ((b * sum_list (anchors_of <$> tensors)
                     + (sum_list (anchors_of <$> take l tensors)
                        + ((i * W + j) * A + d))) * K + c)%nat
      = entries t !! ((((b * H + i) * W + j) * A + d) * K + c)%nat.
Proof.
  intros HB HK Hne Hall. eexists.
  split; [by apply (reshape_and_concat_Ok B K)|].
  split; [done|]. split.
  - unfold well_formed. cbn [entries shape num_elements foldr].
    rewrite <-join_fmap_bind, length_join, <-list_fmap_compose.
    rewrite (sum_list_fmap_same (sum_list (anchors_of <$> tensors) * K)).
    + rewrite length_seq. lia.
    + apply Forall_forall. intros b [_ Hb]%elem_of_seq. simpl.
      by apply image_blocks_length.
  - intros l t H W A b i j d c Hl Hs Hb Hi Hj Hd Hc. cbn [entries].
    assert (prediction B K t) as Hp.
    { rewrite Forall_forall in Hall. apply Hall.
      by eapply list_elem_of_lookup_2. }
    assert (anchors_of t = (H * W * A)%nat) as Ha
      by (unfold anchors_of; by rewrite Hs).
    assert ((i * W + j) * A + d < anchors_of t)%nat as Hrow
      by (rewrite Ha; by apply cell_index_lt).
    assert (sum_list (anchors_of <$> take l tensors) + anchors_of t
            ≤ sum_list (anchors_of <$> tensors))%nat as Hoff.
    { rewrite <-(take_drop_middle tensors l t Hl) at 2.
      rewrite fmap_app, sum_list_with_app. csimpl. lia. }
    pose proof (prefix_blocks_length B K tensors l b Hall Hb) as Hpre.
    set (total := sum_list (anchors_of <$> tensors)) in *.
    set (off := sum_list (anchors_of <$> take l tensors)) in *.
    set (m := ((i * W + j) * A + d)%nat) in *.
    replace ((b * total + (off + m)) * K + c)%nat
      with (b * (total * K) + (off * K + (m * K + c)))%nat by lia.
    rewrite (bind_lookup_uniform _ _ (total * K) b b).
    2:{ apply Forall_forall. intros b' [_ Hb']%elem_of_seq.
        by apply image_blocks_length. }
    2:{ by apply lookup_seq_lt. }
    2:{ nia. }
    assert (m * K + c < anchors_of t * K)%nat as Hin by nia.
    rewrite <-Hpre.
    rewrite (bind_lookup_offset _ _ l (Tensor [B; anchors_of t; K] (entries t))).
    2:{ by rewrite list_lookup_fmap, Hl. }
    2:{ by rewrite (block_length B K). }
    rewrite block_reshaped, lookup_take_lt, lookup_drop by done.
    f_equal. rewrite Ha. unfold m. lia.
Qed.

(** [reshape_and_concat_layout] on one image and two levels, of two
    anchors and of one, with two entries per anchor. *)
Lemma reshape_and_concat_layout_witness :
  ∃ r,
    reshape_and_concat
      [Tensor [1; 1; 1; 2; 2]%nat [Qc_of_Z 1; Qc_of_Z 2; Qc_of_Z 3; Qc_of_Z 4];
       Tensor [1; 1; 1; 1; 2]%nat [Qc_of_Z 5; Qc_of_Z 6]]
    = Ok r ∧
    shape r = [1; 3; 2]%nat ∧
    entries r !! 5%nat = Some (Qc_of_Z 6).
Proof.
  assert (Forall (prediction 1 2)
            [Tensor [1; 1; 1; 2; 2]%nat
               [Qc_of_Z 1; Qc_of_Z 2; Qc_of_Z 3; Qc_of_Z 4];
             Tensor [1; 1; 1; 1; 2]%nat [Qc_of_Z 5; Qc_of_Z 6]]) as Hall.
  { repeat constructor; by eexists _, _, _. }
  pose proof (λ Hne, reshape_and_concat_layout 1 2 _ ltac:(lia) ltac:(lia)
                       Hne Hall) as Hlayout.
  destruct (Hlayout ltac:(done)) as (r & Hr & Hshape & _ & Hentry).
  exists r. split_and!; [exact Hr|exact Hshape|].
  exact (Hentry 1%nat _ 1%nat 1%nat 1%nat 0%nat 0%nat 0%nat 0%nat 1%nat
           eq_refl eq_refl ltac:(lia) ltac:(lia) ltac:(lia) ltac:(lia)
           ltac:(lia)).
Defined.

(** X15.  [reshape_and_concat] raises [ValueError] on an empty list
    ([tf.concat] needs a tensor) and as soon as one of the tensors does not
    have 5 axes, whatever the other tensors are. *)
Theorem reshape_and_concat_errors :
  reshape_and_concat [] = Raise ValueError ∧
  ∀ tensors t,
    t ∈ tensors → length (shape t) ≠ 5%nat →
    reshape_and_concat tensors = Raise ValueError.
Proof.
  split; [done|]. intros tensors t Hin Hrank. unfold reshape_and_concat.
  assert (mapM get_shape tensors = Raise ValueError) as ->; [|done].
  induction tensors as [|t' ts IH]; [by apply elem_of_nil in Hin|].
  cbn [mapM]. destruct (get_shape t') as [s|e] eqn:Hs.
  - rewrite res_bind_Ok. apply elem_of_cons in Hin as [->|Hin].
    + unfold get_shape in Hs.
      destruct (shape t') as [|? [|? [|? [|? [|? [|? ?]]]]]]; done.
    + by rewrite IH.
  - unfold get_shape in Hs.
    destruct (shape t') as [|? [|? [|? [|? [|? [|? ?]]]]]]; by simplify_eq.
Qed.

(** [reshape_and_concat_errors] on a tensor of 4 axes after one of 5. *)
Lemma reshape_and_concat_errors_witness :
  reshape_and_concat
    [Tensor [1; 1; 1; 1; 2]%nat [Qc_of_Z 5; Qc_of_Z 6];
     Tensor [1; 1; 1; 2]%nat [Qc_of_Z 5; Qc_of_Z 6]]
  = Raise ValueError.
Proof.
  apply (proj2 reshape_and_concat_errors _
           (Tensor [1; 1; 1; 2]%nat [Qc_of_Z 5; Qc_of_Z 6])).
  - apply elem_of_cons. right. apply elem_of_cons. by left.
  - simpl. lia.
Defined.

Section anchors_and_predictions.
Variable sqrt : Qc → Qc.

(** X16.  Predictions and anchors line up.  [ssd_multibox_layer] gives the
    prediction of a level the shape (B, H, W, |sizes| + |ratios|, K); on
    such tensors, in a valid configuration, the second dimension of the
    output of [reshape_and_concat] is the number of rows of the output of
    [ssd_anchors_all_layers]. *)
Theorem predictions_match_anchors img_shape layers_shape anchor_sizes
    anchor_ratios anchor_steps offset B K tensors :
  config_ok sqrt img_shape layers_shape anchor_sizes anchor_ratios anchor_steps →
  (0 < B)%nat → (0 < K)%nat →
  Forall2 (λ t x, well_formed t ∧
                  shape t = [B; x.1.1.1; x.1.1.2;
                             (length x.1.2 + length x.2)%nat; K])
    tensors (zip (zip layers_shape anchor_sizes) anchor_ratios) →
  ∃ r anchors,
    reshape_and_concat tensors = Ok r ∧
    ssd_anchors_all_layers sqrt img_shape layers_shape anchor_sizes
      anchor_ratios anchor_steps offset = Ok anchors ∧
    shape r = [B; length anchors; K].
Proof.
  intros Hcfg HB HK Hshapes.
  pose proof Hcfg as (Hne & Hs & Hr & Ht & Hok).
  assert (Forall (prediction B K) tensors) as Hall.
  { clear -Hshapes.
    induction Hshapes as [|t x ts xs [Hwf Hshape] _ IH]; constructor; [|done].
    split; [done|]. eauto. }
  assert (tensors ≠ []) as Htne.
  { intros ->. apply Forall2_length in Hshapes.
    rewrite !length_zip_with, Hs, Hr in Hshapes.
    destruct layers_shape; [done|]. cbn [length] in Hshapes. lia. }
  eexists _, _. split; [by apply (reshape_and_concat_Ok B K)|].
  split; [by apply ssd_anchors_all_layers_Ok|]. cbn [shape].
  rewrite spec_all_anchors_length by done. do 2 f_equal.
  unfold spec_anchor_count. clear -Hshapes. revert Hshapes.
  generalize anchor_sizes anchor_ratios layers_shape. clear.
  induction tensors as [|t ts IH]; intros sizes ratios layers Hshapes.
  - inv Hshapes. symmetry in H. destruct layers, sizes, ratios; try done.
  - inv Hshapes. destruct layers as [|s layers]; [done|].
    destruct sizes as [|sz sizes]; [done|].
    destruct ratios as [|rt ratios]; [done|].
    simpl in H1. injection H1 as -> ->. destruct H2 as [_ Hshape].
    csimpl. rewrite (IH sizes ratios layers) by done.
    unfold anchors_of at 1. by rewrite Hshape.
Qed.
End anchors_and_predictions.

(** [predictions_match_anchors] on the example configuration, one image
    and one entry per anchor. *)
Lemma predictions_match_anchors_witness :
  ∃ r anchors,
    reshape_and_concat
      [Tensor [1; 2; 1; 4; 1]%nat (replicate 8 0);
       Tensor [1; 1; 1; 1; 1]%nat [0]] = Ok r ∧
    ssd_anchors_all_layers rational_sqrt (512, 256)%Z [(2, 1)%nat; (1, 1)%nat]
      [[Qc_of_Z 100; Qc_of_Z 400]; [Qc_of_Z 400]]
      [[Qc_of_Z 4; Q2Qc (1 # 4)]; []] [Qc_of_Z 256; Qc_of_Z 512]
      (Q2Qc (1 # 2)) = Ok anchors ∧
    shape r = [1%nat; length anchors; 1%nat].
Proof.
  apply (predictions_match_anchors rational_sqrt _ _ _ _ _ (Q2Qc (1 # 2))
           1%nat 1%nat _ example_config_ok ltac:(lia) ltac:(lia)).
  repeat constructor.
Defined.

(** ** The default parameters *)

(** The default [anchor_sizes] are the sizes that
    [ssd_size_bounds_to_values] computes from the default
    [anchor_size_bounds], the number of default feature layers and the
    default image shape. *)
Lemma default_anchor_sizes_from_bounds :
  ssd_size_bounds_to_values
    (SSDParams.anchor_size_bounds SSDNet.default_params)
    (Z.of_nat (length (SSDParams.feat_layers SSDNet.default_params)))
    (SSDParams.img_shape SSDNet.default_params)
  = Ok (SSDParams.anchor_sizes SSDNet.default_params).
Proof. qc_decide. Qed.

Lemma default_config_ok sqrt img_shape :
  (∀ x, 0 < x → sqrt x ≠ 0) →
  img_shape.1 ≠ 0%Z → img_shape.2 ≠ 0%Z →
  config_ok sqrt img_shape
    (SSDParams.feat_shapes SSDNet.default_params)
    (SSDParams.anchor_sizes SSDNet.default_params)
    (SSDParams.anchor_ratios SSDNet.default_params)
    (SSDParams.anchor_steps SSDNet.default_params).
Proof.
  intros Hsqrt H1 H2.
  assert (∀ r, 0 < r → ratio_ok sqrt r) as Hratio.
  { intros r Hr. split; [by apply Qcle_not_lt, Qclt_le_weak|by apply Hsqrt]. }
  assert (∀ s0 s1 ratios,
            ¬ s0 * s1 < 0 → Forall (λ r, 0 < r) ratios →
            level_ok sqrt img_shape [s0; s1] ratios) as Hlevel.
  { intros s0 s1 ratios Hs Hr. split_and!; [done|done|done|].
    eapply Forall_impl; [exact Hr|]. exact Hratio. }
  unfold SSDNet.default_params.
  cbn [SSDParams.feat_shapes SSDParams.anchor_sizes SSDParams.anchor_ratios
       SSDParams.anchor_steps].
  split_and!; [discriminate|reflexivity|reflexivity|reflexivity|].
  repeat (apply Forall2_cons_2;
          [apply Hlevel; [qc_decide|repeat (apply Forall_cons_2; [qc_decide|]);
                          apply Forall_nil_2]|]).
  apply Forall2_nil_2.
Qed.

(** X17.  An [SSDNet] built without parameters generates, for every image
    shape with non-zero sides (square or not), 24564 anchors of 4
    coordinates: the default configuration has one entry per level in each
    list and raises on no level.  [math.sqrt] enters only through its being
    non-zero on positive numbers. *)
Theorem default_anchors_count sqrt img_shape :
  (∀ x, 0 < x → sqrt x ≠ 0) →
  img_shape.1 ≠ 0%Z → img_shape.2 ≠ 0%Z →
  ∃ anchors,
    SSDNet.anchors sqrt (SSDNet.__init__ None) img_shape = Ok anchors ∧
    Z.of_nat (length anchors) = 24564%Z ∧
    Forall (λ row, length row = 4%nat) anchors.
Proof.
  intros Hsqrt H1 H2.
  pose proof (default_config_ok sqrt img_shape Hsqrt H1 H2) as Hok.
  eexists. split; [exact (ssd_anchors_all_layers_Ok sqrt _ _ _ _ _ _ Hok)|].
  split.
  - rewrite (spec_all_anchors_length sqrt _ _ _ _ _ _ Hok).
    vm_compute. reflexivity.
  - apply spec_all_anchors_rows.
Qed.

Lemma rational_sqrt_nonzero x : 0 < x → rational_sqrt x ≠ 0.
Proof.
  intros Hx Heq. unfold rational_sqrt in Heq.
  apply Q2Qc_eq_iff in Heq. unfold Qeq in Heq. simpl in Heq.
  assert (0 < Qnum x)%Z as Hnum.
  { unfold Qclt, Qlt in Hx. simpl in Hx. lia. }
  apply Z.sqrt_pos in Hnum. lia.
Qed.

(** [default_anchors_count] on a 300 x 600 image. *)
Lemma default_anchors_count_witness :
  ∃ anchors,
    SSDNet.anchors rational_sqrt (SSDNet.__init__ None) (300, 600)%Z
      = Ok anchors ∧
    Z.of_nat (length anchors) = 24564%Z ∧
    Forall (λ row, length row = 4%nat) anchors.
Proof.
  exact (default_anchors_count rational_sqrt (300, 600)%Z rational_sqrt_nonzero
           ltac:(done) ltac:(done)).
Defined.

(** ** The losses: where they are defined and what they read *)






Lemma nvalues_row_same gcs (r1 r2 : list (list Qc)) :
  Forall3 (λ g (p1 p2 : list Qc), (g ≤ 0)%Z → head p1 = head p2) gcs r1 r2 →
  tf_where (negb <$> ((λ g, bool_decide (0 < g)%Z) <$> gcs))
    ((λ p, default 0 (head p)) <$> r1)
    (cast_float <$> ((λ g, bool_decide (0 < g)%Z) <$> gcs))
  = tf_where (negb <$> ((λ g, bool_decide (0 < g)%Z) <$> gcs))
      ((λ p, default 0 (head p)) <$> r2)
      (cast_float <$> ((λ g, bool_decide (0 < g)%Z) <$> gcs)).
Proof.
  unfold tf_where.
  induction 1 as [|g p1 p2 gcs r1 r2 Hp _ IH]; [done|]. csimpl.
  rewrite IH. f_equal. case_bool_decide; [done|]. simpl.
  by rewrite Hp by lia.
Qed.

Lemma nvalues_of_same gclasses c1 c2 :
  same_background_on_negatives gclasses c1 c2 →
  nvalues_of c1 gclasses = nvalues_of c2 gclasses.
Proof.
  unfold nvalues_of, tf_where2, slice_class0, float_pos_mask_of, neg_mask_of,
    pos_mask_of.
  induction 1 as [|gcs r1 r2 gclasses c1 c2 Hr _ IH]; [done|]. csimpl.
  by rewrite IH, (nvalues_row_same _ _ _ Hr).
Qed.

Section losses_more.
Variable xent : list Qc → Z → Qc.


(** X19.  Of [confidences] the losses read only the background entry
    (class 0) of the anchors that are not positive: two confidence tensors
    that agree there give the same two losses, whatever they hold for the
    other classes and at the positive anchors. *)
Theorem ssd_losses_reads_background_of_negatives confidences confidences'
    logits localizations gclasses glocalizations gscores negative_ratio alpha
    label_smoothing :
  same_background_on_negatives gclasses confidences confidences' →
  ssd_losses xent confidences logits localizations gclasses glocalizations
    gscores negative_ratio alpha label_smoothing
  = ssd_losses xent confidences' logits localizations gclasses glocalizations
      gscores negative_ratio alpha label_smoothing.
Proof.
  intros Hsame. unfold ssd_losses, selected_neg_of.
  by rewrite (nvalues_of_same _ _ _ Hsame).
Qed.
End losses_more.




(** [ssd_losses_reads_background_of_negatives] on confidences that differ
    at the positive anchor and in class 1. *)
Lemma ssd_losses_reads_background_of_negatives_witness :
  ssd_losses example_cross_entropy
    [[[Q2Qc (9 # 10); Q2Qc (1 # 10)]; [Q2Qc (3 # 10); Q2Qc (7 # 10)]]]
    [[[Qc_of_Z 2; Qc_of_Z 0]; [Qc_of_Z 0; Qc_of_Z 1]]]
    [[[1; 1; 1; 1]; [0; 0; 0; Q2Qc (1 # 2)]]] [[0; 1]]%Z
    [[[0; 0; 0; 0]; [0; 0; 0; 0]]] [[0; 1]] (Qc_of_Z 3) 1 0
  = ssd_losses example_cross_entropy
      [[[Q2Qc (9 # 10); Q2Qc (5 # 10)]; [Q2Qc (8 # 10); Q2Qc (2 # 10)]]]
      [[[Qc_of_Z 2; Qc_of_Z 0]; [Qc_of_Z 0; Qc_of_Z 1]]]
      [[[1; 1; 1; 1]; [0; 0; 0; Q2Qc (1 # 2)]]] [[0; 1]]%Z
      [[[0; 0; 0; 0]; [0; 0; 0; 0]]] [[0; 1]] (Qc_of_Z 3) 1 0.
Proof.
  apply ssd_losses_reads_background_of_negatives.
  repeat constructor; lia.
Defined.

